(** * A shallow embedding of [python/lexer.py]

    The scanner of the Pascal-like language: the [Lexer] object with its
    cursor primitives ([advance], [peek]), the skipping loops, the number and
    identifier recognisers and the dispatcher [get_next_token].

    Modelling conventions.
    - A Python [str] is a [string]; a character is an [ascii], read as the
      Unicode code point of the same number (U+0000 .. U+00FF).  The
      character classes [str.isspace], [str.isdigit], [str.isalpha] and
      [str.isalnum] are those of the Unicode database on that range.
    - The object's fields are a record; a method that mutates [self] is a
      function from the state before to the state after.
    - A raised exception is the [Raise] case of [result].
    - Every [while] loop takes a fuel argument; the methods supply
      [fuel_for], and [get_next_token_total] shows that it never runs out. *)

From Stdlib Require Import Bool Arith ZArith Lia List.
From Stdlib Require Import Ascii String DecimalString DecimalNat.
From Stdlib Require Import SpecFloat.
Import ListNotations.

Local Open Scope string_scope.
Local Open Scope nat_scope.

(** ** Python's character classes on U+0000 .. U+00FF *)

Definition code (c : ascii) : nat := nat_of_ascii c.

Definition in_range (lo hi : nat) (c : ascii) : bool :=
  (lo <=? code c) && (code c <=? hi).

(** [str.isspace]: bidirectional class WS, B or S, or category Zs. *)
Definition py_isspace (c : ascii) : bool :=
  in_range 9 13 c || in_range 28 32 c || (code c =? 133) || (code c =? 160).

(** [str.isdecimal]: category Nd. *)
Definition py_isdecimal (c : ascii) : bool := in_range 48 57 c.

(** [str.isdigit]: the decimal digits and the superscripts 2, 3 and 1. *)
Definition py_isdigit (c : ascii) : bool :=
  py_isdecimal c || (code c =? 178) || (code c =? 179) || (code c =? 185).

(** [str.isnumeric]: the digits and the vulgar fractions. *)
Definition py_isnumeric (c : ascii) : bool :=
  py_isdigit c || in_range 188 190 c.

(** [str.isalpha]: the letter categories. *)
Definition py_isalpha (c : ascii) : bool :=
  in_range 65 90 c || in_range 97 122 c
  || (code c =? 170) || (code c =? 181) || (code c =? 186)
  || in_range 192 214 c || in_range 216 246 c || in_range 248 255 c.

(** [str.isalnum]. *)
Definition py_isalnum (c : ascii) : bool :=
  py_isalpha c || py_isdecimal c || py_isdigit c || py_isnumeric c.

Definition newline : ascii := ascii_of_nat 10.

(** ** Exceptions and results *)

(** The exception classes the module can raise: the plain [Exception] of
    [Lexer.error], the module's own [LexerError], and the built-in errors of
    indexing, of attribute access on [None] and of [int] / [float]. *)
Inductive exn : Type :=
| PyException (message : string)
| LexerError (message : string)
| IndexError
| AttributeError
| ValueError.

Inductive result (A : Type) : Type :=
| Ok (a : A)
| Raise (e : exn)
| OutOfFuel.

Arguments Ok {A} a.
Arguments Raise {A} e.
Arguments OutOfFuel {A}.

Definition bind {A B : Type} (r : result A) (k : A -> result B) : result B :=
  match r with
  | Ok a => k a
  | Raise e => Raise e
  | OutOfFuel => OutOfFuel
  end.

Notation "x <- r ;; k" := (bind r (fun x => k))
  (at level 61, r at next level, right associativity).
Notation "' p <- r ;; k" := (bind r (fun x => let p := x in k))
  (at level 61, p pattern, r at next level, right associativity).

(** ** Tokens *)

Inductive TokenType : Type :=
| PLUS | MINUS | MUL | FLOAT_DIV | LPAREN | RPAREN | LBRACE | RBRACE
| SEMI | DOT | COLON | COMMA | ASSIGN | LESS | LESS_EQUAL | GREATER
| GREATER_EQUAL | BANG | EQUAL | BANG_EQUAL
| PROGRAM | INTEGER | REAL | INTEGER_DIV | VAR | PROCEDURE | BEGIN | END
| IDENT | INTEGER_CONST | REAL_CONST | EOF.

(** What a token's [value] field can hold: [None], a [TokenType] (operators
    and punctuation), an [int], a [float] or a [str].  A float is a binary64
    number, in the representation of [SpecFloat]. *)
Inductive Value : Type :=
| VNone
| VType (t : TokenType)
| VInt (n : Z)
| VFloat (f : spec_float)
| VStr (s : string).

Record Token : Type := mkToken {
  type : TokenType;
  value : Value;
  line : nat;
  col : nat
}.

(** ** The scanner state *)

Record Lexer : Type := mkLexer {
  text : string;
  pos : nat;
  current_char : option ascii;
  lineno : nat;
  column : nat
}.

(** [self.reserved_keywords]. *)
Definition reserved_keywords : list (string * TokenType) :=
  [ ("PROGRAM", PROGRAM); ("INTEGER", INTEGER); ("REAL", REAL);
    ("DIV", INTEGER_DIV); ("VAR", VAR); ("PROCEDURE", PROCEDURE);
    ("BEGIN", BEGIN); ("END", END) ].

(** [d.get(key, default)]. *)
Fixpoint dict_get (d : list (string * TokenType)) (key : string)
    (default : TokenType) : TokenType :=
  match d with
  | [] => default
  | (k, v) :: d' => if String.eqb k key then v else dict_get d' key default
  end.

(** [Lexer.__init__]: [self.text[self.pos]] raises [IndexError] on the empty
    string. *)
Definition Lexer_init (txt : string) : result Lexer :=
  match String.get 0 txt with
  | None => Raise IndexError
  | Some c =>
      Ok {| text := txt; pos := 0; current_char := Some c;
            lineno := 1; column := 1 |}
  end.

(** The [str] that [format] substitutes for [self.current_char]. *)
Definition format_char (c : option ascii) : string :=
  match c with
  | None => "None"
  | Some a => String a EmptyString
  end.

Definition format_int (n : nat) : string :=
  NilEmpty.string_of_uint (Nat.to_uint n).

Definition error_message (c : option ascii) (l k : nat) : string :=
  "Lexer error on '" ++ format_char c ++ "' line: " ++ format_int l
  ++ " column: " ++ format_int k.

(** [Lexer.error]. *)
Definition error {A : Type} (s : Lexer) : result A :=
  Raise (PyException (error_message (current_char s) (lineno s) (column s))).

Definition is_newline (c : option ascii) : bool :=
  match c with
  | Some a => Ascii.eqb a newline
  | None => false
  end.

(** [Lexer.advance]. *)
Definition advance (s : Lexer) : Lexer :=
  let pos' := pos s + 1 in
  let cur :=
    if (Z.of_nat pos' >? Z.of_nat (String.length (text s)) - 1)%Z
    then None
    else String.get pos' (text s) in
  if is_newline cur
  then {| text := text s; pos := pos'; current_char := cur;
          lineno := lineno s + 1; column := 1 |}
  else {| text := text s; pos := pos'; current_char := cur;
          lineno := lineno s; column := column s |}.

(** [Lexer.peek]. *)
Definition peek (s : Lexer) : option ascii :=
  let peek_pos := pos s + 1 in
  if (Z.of_nat peek_pos >? Z.of_nat (String.length (text s)) - 1)%Z
  then None
  else String.get peek_pos (text s).

(** The loop shared by the skipping and accumulating methods,
    [while self.current_char != None and test(self.current_char):
       result += self.current_char; self.advance()];
    the methods that only skip ignore the accumulated string. *)
Fixpoint while_char (test : ascii -> bool) (fuel : nat) (acc : string)
    (s : Lexer) : result (string * Lexer) :=
  match fuel with
  | 0 => OutOfFuel
  | S fuel' =>
      match current_char s with
      | None => Ok (acc, s)
      | Some c =>
          if test c
          then while_char test fuel' (acc ++ String c EmptyString) (advance s)
          else Ok (acc, s)
      end
  end.

(** Fuel that suffices for any loop started in state [s]. *)
Definition fuel_for (s : Lexer) : nat := S (S (String.length (text s))).

Arguments fuel_for : simpl never.

(** [Lexer.skip_whitespace]. *)
Definition skip_whitespace (s : Lexer) : result Lexer :=
  '(_, s1) <- while_char py_isspace (fuel_for s) "" s ;;
  Ok s1.

Definition rbrace : ascii := "}"%char.

(** [c != '}']. *)
Definition not_rbrace (c : ascii) : bool := negb (Ascii.eqb c rbrace).

(** [Lexer.skip_comments]. *)
Definition skip_comments (s : Lexer) : result Lexer :=
  '(_, s1) <- while_char not_rbrace (fuel_for s) "" s ;;
  match current_char s1 with
  | None => error s1
  | Some _ => Ok (advance s1)
  end.

(** [Lexer.new_token]. *)
Definition new_token (ty : TokenType) (v : Value) (s : Lexer) : Token :=
  let v' := match v with VNone => VType ty | _ => v end in
  {| type := ty; value := v'; line := lineno s; col := column s |}.

(** The number a string of decimal digits denotes. *)
Fixpoint digits_value (acc : Z) (s : string) : Z :=
  match s with
  | EmptyString => acc
  | String c s' => digits_value (10 * acc + Z.of_nat (code c - 48)) s'
  end.

Fixpoint string_forallb (test : ascii -> bool) (s : string) : bool :=
  match s with
  | EmptyString => true
  | String c s' => test c && string_forallb test s'
  end.

Definition is_decimal_string (s : string) : bool :=
  negb (String.eqb s "") && string_forallb py_isdecimal s.

(** The most digits [int] converts from a string: the interpreter's default
    [sys.int_info.default_max_str_digits]. *)
Definition int_max_str_digits : nat := 4300.

(** The strings of [isdigit] characters that [int] converts: non-empty, of
    decimal digits only (a superscript digit is not a digit for [int]), and
    of at most [int_max_str_digits] characters. *)
Definition int_accepts (s : string) : bool :=
  is_decimal_string s && (String.length s <=? int_max_str_digits).

(** [int(result)] on the strings [number] builds (characters of class
    [isdigit]); on the others it raises [ValueError]. *)
Definition py_int (s : string) : result Z :=
  if int_accepts s then Ok (digits_value 0 s) else Raise ValueError.

(** The binary64 number nearest to [m / 10 ^ k], ties to the even mantissa,
    infinity beyond the largest finite number: the quotient is taken with
    the bits and the remainder that rounding needs, then rounded, as
    [SpecFloat] does for a division. *)
Definition float_of_decimal (m : Z) (k : nat) : spec_float :=
  match m with
  | Zpos _ =>
      let '(q, e, l) := SFdiv_core_binary 53 1024 m 0 (10 ^ Z.of_nat k) 0 in
      binary_round_aux 53 1024 false q e l
  | _ => S754_zero false
  end.

(** The strings [whole ++ "." ++ frac] of [isdigit] characters that [float]
    converts: decimal digits only, with a digit on one side of the dot at
    least. *)
Definition float_accepts (whole frac : string) : bool :=
  string_forallb py_isdecimal whole && string_forallb py_isdecimal frac
  && negb (String.eqb whole "" && String.eqb frac "").

(** [float(result)] on a string [whole ++ "." ++ frac] of [isdigit]
    characters: the correctly rounded binary64 number. *)
Definition py_float (whole frac : string) : result Value :=
  if float_accepts whole frac
  then Ok (VFloat (float_of_decimal (digits_value 0 (whole ++ frac))
                     (String.length frac)))
  else Raise ValueError.

Definition dot : ascii := "."%char.

(** [Lexer.number]. *)
Definition number (s : Lexer) : result (Token * Lexer) :=
  '(whole, s1) <- while_char py_isdigit (fuel_for s) "" s ;;
  let integer_branch :=
    n <- py_int whole ;;
    Ok (new_token INTEGER_CONST (VInt n) s1, s1) in
  match current_char s1 with
  | Some c =>
      if Ascii.eqb c dot then
        match peek s1 with
        | None => Raise AttributeError
        | Some p =>
            if py_isdigit p then
              let s2 := advance s1 in
              '(frac, s3) <- while_char py_isdigit (fuel_for s2) "" s2 ;;
              v <- py_float whole frac ;;
              Ok (new_token REAL_CONST v s3, s3)
            else integer_branch
        end
      else integer_branch
  | None => integer_branch
  end.

(** [Lexer.isalpha]. *)
Definition isalpha (ch : ascii) : bool :=
  py_isalnum ch || Ascii.eqb ch "_"%char.

(** [Lexer.identifier]; its loop tests [str.isalpha], not [Lexer.isalpha]. *)
Definition identifier (s : Lexer) : result (Token * Lexer) :=
  '(name, s1) <- while_char py_isalpha (fuel_for s) "" s ;;
  let token_type := dict_get reserved_keywords name IDENT in
  Ok (new_token token_type (VStr name) s1, s1).

(** [advance] followed by [return self.new_token(ty)]. *)
Definition single (ty : TokenType) (s : Lexer) : result (Token * Lexer) :=
  let s1 := advance s in Ok (new_token ty VNone s1, s1).

(** [advance], then the compound token if an [=] follows. *)
Definition with_equal (ty ty_eq : TokenType) (s : Lexer)
    : result (Token * Lexer) :=
  let s1 := advance s in
  match current_char s1 with
  | Some c =>
      if Ascii.eqb c "="%char
      then let s2 := advance s1 in Ok (new_token ty_eq VNone s2, s2)
      else Ok (new_token ty VNone s1, s1)
  | None => Ok (new_token ty VNone s1, s1)
  end.

Definition is_char (c : option ascii) (a : ascii) : bool :=
  match c with
  | Some b => Ascii.eqb b a
  | None => false
  end.

(** The body of the dispatcher once whitespace and comments are excluded:
    the chain of [if self.current_char == ...] tests, in source order. *)
Definition classify (c : ascii) (s : Lexer) : result (Token * Lexer) :=
  if py_isdigit c then number s
  else if isalpha c then identifier s
  else if Ascii.eqb c "+" then single PLUS s
  else if Ascii.eqb c "-" then single MINUS s
  else if Ascii.eqb c "*" then single MUL s
  else if Ascii.eqb c "/" then single FLOAT_DIV s
  else if Ascii.eqb c "(" then single LPAREN s
  else if Ascii.eqb c ")" then single RPAREN s
  else if Ascii.eqb c ";" then single SEMI s
  else if Ascii.eqb c "." then single DOT s
  else if Ascii.eqb c ":" then
    if is_char (peek s) "="
    then let s2 := advance (advance s) in Ok (new_token ASSIGN VNone s2, s2)
    else single COLON s
  else if Ascii.eqb c "," then single COMMA s
  else if Ascii.eqb c "<" then with_equal LESS LESS_EQUAL s
  else if Ascii.eqb c ">" then with_equal GREATER GREATER_EQUAL s
  else if Ascii.eqb c "!" then with_equal BANG BANG_EQUAL s
  else error s.

(** [Token(TokenType.EOF, None)], with the default [line] and [col]. *)
Definition eof_token : Token :=
  {| type := EOF; value := VNone; line := 0; col := 0 |}.

(** The [while self.current_char != None] loop of [get_next_token]. *)
Fixpoint get_next_token_loop (fuel : nat) (s : Lexer)
    : result (Token * Lexer) :=
  match fuel with
  | 0 => OutOfFuel
  | S fuel' =>
      match current_char s with
      | None => Ok (eof_token, s)
      | Some c =>
          if py_isspace c then
            s1 <- skip_whitespace s ;; get_next_token_loop fuel' s1
          else if Ascii.eqb c "{" then
            s1 <- skip_comments s ;; get_next_token_loop fuel' s1
          else classify c s
      end
  end.

(** [Lexer.get_next_token]. *)
Definition get_next_token (s : Lexer) : result (Token * Lexer) :=
  get_next_token_loop (fuel_for s) s.

(** The outcome of the call number [n + 1] on a scanner in state [s]: the
    first [n] tokens are dropped, an exception ends the sequence. *)
Fixpoint nth_call (n : nat) (s : Lexer) : result (Token * Lexer) :=
  match n with
  | 0 => get_next_token s
  | S n' => '(_, s1) <- get_next_token s ;; nth_call n' s1
  end.

(** [lexer = Lexer(txt)] followed by [n + 1] calls of [get_next_token]. *)
Definition scan (n : nat) (txt : string) : result (Token * Lexer) :=
  s <- Lexer_init txt ;; nth_call n s.

(** [n] calls of [advance]. *)
Definition advance_n (n : nat) (s : Lexer) : Lexer := Nat.iter n advance s.

(** ** Vocabulary of the statements *)

(** The cached character agrees with the text at the cursor. *)
Definition consistent (s : Lexer) : Prop :=
  current_char s = String.get (pos s) (text s).

(** The loop stops in front of [rest]: at the end of the text or at a
    character that fails the test. *)
Definition stops_at (test : ascii -> bool) (rest : string) : Prop :=
  match rest with
  | EmptyString => True
  | String c _ => test c = false
  end.

(** A call started in [s] came back: it returned a token and a state over the
    same text with a consistent cursor that did not move back, or it
    raised. *)
Definition came_back (s : Lexer) (r : result (Token * Lexer)) : Prop :=
  match r with
  | Ok (_, s') => consistent s' /\ text s' = text s /\ pos s <= pos s'
  | Raise _ => True
  | OutOfFuel => False
  end.

(** A stretch of text that [get_next_token] skips: whitespace characters
    and closed [{ ... }] comments. *)
Inductive skippable : string -> Prop :=
| skip_nil : skippable ""
| skip_space (c : ascii) (pre : string) :
    py_isspace c = true -> skippable pre -> skippable (String c pre)
| skip_comment (body pre : string) :
    string_forallb not_rbrace body = true -> skippable pre ->
    skippable (String "{" (body ++ String rbrace pre)).

Fixpoint string_mem (c : ascii) (s : string) : bool :=
  match s with
  | EmptyString => false
  | String x s' => Ascii.eqb c x || string_mem c s'
  end.

(** The characters some branch of [get_next_token] accepts; any other
    character is illegal. *)
Definition recognised (c : ascii) : bool :=
  py_isspace c || Ascii.eqb c "{" || py_isdigit c || isalpha c
  || string_mem c "+-*/();.:,<>!".

(** Upper case of the letters [a] .. [z]. *)
Definition ascii_upper (c : ascii) : ascii :=
  if in_range 97 122 c then ascii_of_nat (code c - 32) else c.

Fixpoint string_upper (s : string) : string :=
  match s with
  | EmptyString => EmptyString
  | String c s' => String (ascii_upper c) (string_upper s')
  end.

(** The kinds of the first [n] tokens of a text ([None] where the call
    raised). *)
Definition kinds (n : nat) (txt : string) : list (option TokenType) :=
  map (fun k => match scan k txt with
                | Ok (t, _) => Some (type t)
                | _ => None
                end) (seq 0 n).

(** The states the scanner passes through: from [s] to [s'] by calls of
    [advance], each made while a character is under the cursor. *)
Inductive moves : Lexer -> Lexer -> Prop :=
| moves_here (s : Lexer) : moves s s
| moves_on (s : Lexer) (c : ascii) (s' : Lexer) :
    current_char s = Some c -> moves (advance s) s' -> moves s s'.

(** What holds of the outcome of a call on a scanner made from [txt]: it did
    not run out of fuel, and a returned state still reads [txt], with the
    cached character that of the cursor and the cursor inside the text or
    just behind it. *)
Definition cursor_kept (txt : string) (r : result (Token * Lexer)) : Prop :=
  match r with
  | Ok (_, s') =>
      text s' = txt /\ current_char s' = String.get (pos s') txt
      /\ pos s' <= String.length txt
  | Raise _ => True
  | OutOfFuel => False
  end.

Fixpoint count_newlines (s : string) : nat :=
  match s with
  | EmptyString => 0
  | String c s' => (if Ascii.eqb c newline then 1 else 0) + count_newlines s'
  end.

(** The tokens of one character that need no lookahead. *)
Definition punctuation : list (ascii * TokenType) :=
  [ ("+"%char, PLUS); ("-"%char, MINUS); ("*"%char, MUL);
    ("/"%char, FLOAT_DIV); ("("%char, LPAREN); (")"%char, RPAREN);
    (";"%char, SEMI); ("."%char, DOT); (","%char, COMMA) ].

(** The characters that an [=] extends: the character, the kind without and
    the kind with the [=]. *)
Definition compound : list (ascii * TokenType * TokenType) :=
  [ (":"%char, COLON, ASSIGN); ("<"%char, LESS, LESS_EQUAL);
    (">"%char, GREATER, GREATER_EQUAL); ("!"%char, BANG, BANG_EQUAL) ].

(** The text behind a run of digits lets the run stand as an integer: it is
    empty, or starts with a character that is neither a digit nor a dot, or
    with a dot that a character other than a digit follows. *)
Definition ends_integer (rest : string) : bool :=
  match rest with
  | EmptyString => true
  | String c r =>
      negb (py_isdigit c)
      && (negb (Ascii.eqb c dot)
          || match r with
             | EmptyString => false
             | String d _ => negb (py_isdigit d)
             end)
  end.

(** A float that is zero, positive or plus infinity. *)
Definition float_nonneg (f : spec_float) : bool :=
  match f with
  | S754_zero false | S754_infinity false | S754_finite false _ _ => true
  | _ => false
  end.

(** The [value] a token of each kind carries. *)
Definition value_fits (t : Token) : Prop :=
  match type t with
  | EOF => value t = VNone
  | INTEGER_CONST => exists n, value t = VInt n /\ (0 <= n)%Z
  | REAL_CONST => exists f, value t = VFloat f /\ float_nonneg f = true
  | IDENT => exists name, value t = VStr name
  | PROGRAM => value t = VStr "PROGRAM"
  | INTEGER => value t = VStr "INTEGER"
  | REAL => value t = VStr "REAL"
  | INTEGER_DIV => value t = VStr "DIV"
  | VAR => value t = VStr "VAR"
  | PROCEDURE => value t = VStr "PROCEDURE"
  | BEGIN => value t = VStr "BEGIN"
  | END => value t = VStr "END"
  | ty => value t = VType ty
  end.

(** A token other than the [EOF] token is made by [new_token] in the state
    the call returns. *)
Definition stamped (t : Token) (s' : Lexer) : Prop :=
  exists ty v, t = new_token ty v s'.

(** The error a call ends in: [self.error()] on the unclosed comment or on
    the illegal character under the cursor of a state [s1] that the call
    reached, or the [AttributeError] and [ValueError] of [number]. *)
Definition scan_error (s : Lexer) (e : exn) : Prop :=
  e = AttributeError \/ e = ValueError
  \/ exists s1,
       moves s s1
       /\ e = PyException
               (error_message (current_char s1) (lineno s1) (column s1))
       /\ (current_char s1 = None
           \/ exists c, current_char s1 = Some c /\ recognised c = false).

(** The kinds of the enumeration that no branch of the scanner builds. *)
Definition unused_kind (ty : TokenType) : bool :=
  match ty with
  | LBRACE | RBRACE | EQUAL => true
  | _ => false
  end.

(** What holds of a token whose value is the string [name]. *)
Definition is_slice_of_letters (name : string) (s' : Lexer) : Prop :=
  string_forallb py_isalpha name = true
  /\ String.length name <= pos s'
  /\ name = String.substring (pos s' - String.length name)
              (String.length name) (text s').

(** The characters on which a call cannot stand still: all but those that
    [Lexer.isalpha] accepts and that are neither a letter nor a digit (the
    underscore and the vulgar fractions). *)
Definition consumable (c : ascii) : bool :=
  negb (isalpha c) || py_isalpha c || py_isdigit c.

(** The scan is over: the call returned the [EOF] token or raised. *)
Definition scan_over (r : result (Token * Lexer)) : Prop :=
  match r with
  | Ok (t, _) => t = eof_token
  | Raise _ => True
  | OutOfFuel => False
  end.

(** The first token of the scanner made from [txt] is of kind [ty] and
    carries [txt] as its value. *)
Definition first_token_of (txt : string) (ty : TokenType) : Prop :=
  exists t s', scan 0 txt = Ok (t, s') /\ type t = ty /\ value t = VStr txt.

(** * Properties *)

(** ** Strings *)

Lemma length_app (a b : string) :
  String.length (a ++ b) = String.length a + String.length b.
Proof. induction a as [|c a IH]; simpl; [reflexivity | now rewrite IH]. Qed.

Lemma app_assoc (a b c : string) : (a ++ b) ++ c = a ++ b ++ c.
Proof. induction a as [|x a IH]; simpl; [reflexivity | now rewrite IH]. Qed.

Lemma app_empty_r (a : string) : a ++ "" = a.
Proof. induction a as [|x a IH]; simpl; [reflexivity | now rewrite IH]. Qed.

Lemma get_none (s : string) : forall n, String.length s <= n -> String.get n s = None.
Proof.
  induction s as [|c s IH]; intros n Hn; simpl; [reflexivity|].
  destruct n as [|n]; simpl in Hn; [lia | apply IH; lia].
Qed.

Lemma get_some_lt (s : string) :
  forall n c, String.get n s = Some c -> n < String.length s.
Proof.
  induction s as [|x s IH]; intros n c H; simpl in *; [discriminate|].
  destruct n as [|n]; [lia | apply IH in H; lia].
Qed.

Lemma get_app_here (a : string) (c : ascii) (b : string) :
  String.get (String.length a) (a ++ String c b) = Some c.
Proof. induction a as [|x a IH]; simpl; [reflexivity | exact IH]. Qed.

Lemma get_app_end (a : string) : String.get (String.length a) a = None.
Proof. apply get_none; lia. Qed.

(** ** The cursor primitives *)

Lemma guarded_get (n : nat) (t : string) :
  (if (Z.of_nat n >? Z.of_nat (String.length t) - 1)%Z
   then None else String.get n t) = String.get n t.
Proof.
  destruct (Z.gtb_spec (Z.of_nat n) (Z.of_nat (String.length t) - 1)) as [H|H];
    [symmetry; apply get_none; lia | reflexivity].
Qed.

(** In the [else] branch of [advance] and [peek] the index is in range, so
    the subscript cannot raise. *)
Lemma guarded_index_in_range (n : nat) (t : string) :
  (Z.of_nat n >? Z.of_nat (String.length t) - 1)%Z = false ->
  exists c, String.get n t = Some c.
Proof.
  intros H. destruct (String.get n t) as [c|] eqn:E; [now exists c|].
  destruct (Z.gtb_spec (Z.of_nat n) (Z.of_nat (String.length t) - 1)) as [H'|H'];
    [discriminate|].
  destruct (le_lt_dec (String.length t) n) as [L|L]; [lia|].
  clear - E L. revert n E L.
  induction t as [|x t IH]; intros n E L; simpl in *; [lia|].
  destruct n as [|n]; [discriminate | apply (IH n E); lia].
Qed.

Lemma advance_text (s : Lexer) : text (advance s) = text s.
Proof. unfold advance; destruct (is_newline _); reflexivity. Qed.

Lemma advance_pos (s : Lexer) : pos (advance s) = S (pos s).
Proof. unfold advance; destruct (is_newline _); simpl; lia. Qed.

Lemma advance_current (s : Lexer) :
  current_char (advance s) = String.get (S (pos s)) (text s).
Proof.
  unfold advance; destruct (is_newline _); simpl;
    rewrite guarded_get; f_equal; lia.
Qed.

Lemma advance_consistent (s : Lexer) : consistent (advance s).
Proof.
  unfold consistent.
  now rewrite advance_current, advance_pos, advance_text.
Qed.

Lemma peek_get (s : Lexer) : peek s = String.get (S (pos s)) (text s).
Proof. unfold peek. rewrite guarded_get. f_equal; lia. Qed.

Lemma Lexer_init_consistent (txt : string) (s : Lexer) :
  Lexer_init txt = Ok s -> consistent s /\ text s = txt /\ pos s = 0.
Proof.
  unfold Lexer_init. destruct (String.get 0 txt) as [c|] eqn:E; [|discriminate].
  intros H; injection H as <-. unfold consistent; simpl. auto.
Qed.

Lemma advance_n_succ (n : nat) (s : Lexer) :
  advance_n (S n) s = advance_n n (advance s).
Proof. unfold advance_n. apply Nat.iter_succ_r. Qed.

Lemma advance_n_text (n : nat) (s : Lexer) : text (advance_n n s) = text s.
Proof.
  induction n as [|n IH]; [reflexivity|].
  change (advance_n (S n) s) with (advance (advance_n n s)).
  now rewrite advance_text.
Qed.

Lemma advance_n_pos (n : nat) (s : Lexer) : pos (advance_n n s) = pos s + n.
Proof.
  induction n as [|n IH]; [simpl; lia|].
  change (advance_n (S n) s) with (advance (advance_n n s)).
  rewrite advance_pos, IH. lia.
Qed.

Lemma advance_n_consistent (n : nat) (s : Lexer) :
  consistent s -> consistent (advance_n n s).
Proof.
  destruct n as [|n]; [trivial|]. intros _.
  change (advance_n (S n) s) with (advance (advance_n n s)).
  apply advance_consistent.
Qed.

Lemma advance_n_add (n m : nat) (s : Lexer) :
  advance_n (n + m) s = advance_n m (advance_n n s).
Proof.
  unfold advance_n. rewrite Nat.add_comm. apply Nat.iter_add.
Qed.

(** ** The character loop *)

Section WhileChar.

Variable test : ascii -> bool.

(** Run over a stretch [mid] of characters that all pass the test. *)
Lemma while_char_run (mid : string) :
  forall (done rest acc : string) (s : Lexer) (fuel : nat),
    consistent s ->
    text s = done ++ mid ++ rest ->
    pos s = String.length done ->
    string_forallb test mid = true ->
    stops_at test rest ->
    String.length mid < fuel ->
    while_char test fuel acc s = Ok (acc ++ mid, advance_n (String.length mid) s).
Proof.
  induction mid as [|c mid IH]; intros done rest acc s fuel Hc Ht Hp Hall Hstop Hf.
  - destruct fuel as [|fuel]; [simpl in Hf; lia|].
    simpl. rewrite Hc, Ht, Hp, app_empty_r. simpl.
    destruct rest as [|r rest].
    + now rewrite app_empty_r, get_app_end.
    + rewrite get_app_here. simpl in Hstop. now rewrite Hstop.
  - destruct fuel as [|fuel]; [simpl in Hf; lia|].
    simpl in Hall. apply andb_true_iff in Hall as [Hx Hall].
    cbn [while_char]. rewrite Hc, Ht, Hp.
    change (String c mid ++ rest) with (String c (mid ++ rest)).
    rewrite get_app_here, Hx.
    rewrite (IH (done ++ String c "") rest).
    + rewrite app_assoc.
      change (String.length (String c mid)) with (S (String.length mid)).
      now rewrite advance_n_succ.
    + apply advance_consistent.
    + rewrite advance_text, Ht, app_assoc. reflexivity.
    + rewrite advance_pos, Hp, length_app. simpl. lia.
    + exact Hall.
    + exact Hstop.
    + simpl in Hf. lia.
Qed.

(** With fuel beyond the distance to the end of the text the loop returns;
    it leaves the text alone, never moves back, moves on if it iterated at
    all, and stops at the end or at a character failing the test. *)
Lemma while_char_total (fuel : nat) :
  forall (acc : string) (s : Lexer),
    consistent s ->
    String.length (text s) - pos s < fuel ->
    exists acc' s',
      while_char test fuel acc s = Ok (acc', s')
      /\ consistent s' /\ text s' = text s /\ pos s <= pos s'
      /\ (forall c, current_char s = Some c -> test c = true -> pos s < pos s')
      /\ (forall c, current_char s' = Some c -> test c = false).
Proof.
  induction fuel as [|fuel IH]; intros acc s Hc Hf; [lia|].
  simpl. destruct (current_char s) as [c|] eqn:Ecur.
  - destruct (test c) eqn:Etest.
    + assert (Hlt : pos s < String.length (text s)).
      { apply get_some_lt with c. now rewrite <- Hc. }
      destruct (IH (acc ++ String c "") (advance s)) as (a & s' & E & C & T & P & _ & Q).
      * apply advance_consistent.
      * rewrite advance_text, advance_pos. lia.
      * exists a, s'. rewrite advance_pos in P. rewrite advance_text in T.
        repeat split; auto; try (intros; lia).
    + exists acc, s. repeat split; auto.
      * intros c' H1 H2. congruence.
      * intros c' H1. congruence.
  - exists acc, s. repeat split; auto; intros; congruence.
Qed.

End WhileChar.

Lemma fuel_for_enough (s : Lexer) :
  String.length (text s) - pos s < fuel_for s.
Proof. unfold fuel_for. lia. Qed.

(** ** Every call returns or raises *)

Lemma skip_whitespace_total (s : Lexer) :
  consistent s ->
  exists s',
    skip_whitespace s = Ok s' /\ consistent s' /\ text s' = text s
    /\ (forall c, current_char s = Some c -> py_isspace c = true ->
                  pos s < pos s').
Proof.
  intros Hc. unfold skip_whitespace.
  destruct (while_char_total py_isspace (fuel_for s) "" s Hc (fuel_for_enough s))
    as (a & s' & E & C & T & _ & P & _).
  rewrite E. simpl. exists s'. auto.
Qed.

Lemma skip_comments_total (s : Lexer) :
  consistent s ->
  (exists e, skip_comments s = Raise e)
  \/ (exists s',
        skip_comments s = Ok s' /\ consistent s' /\ text s' = text s
        /\ pos s < pos s').
Proof.
  intros Hc. unfold skip_comments.
  destruct (while_char_total not_rbrace
              (fuel_for s) "" s Hc (fuel_for_enough s))
    as (a & s' & E & C & T & P & _ & _).
  rewrite E. simpl. destruct (current_char s') as [c|].
  - right. exists (advance s'). split; [reflexivity|].
    rewrite advance_text, advance_pos.
    repeat split; auto using advance_consistent. lia.
  - left. eexists. reflexivity.
Qed.

Lemma number_total (s : Lexer) : consistent s -> came_back s (number s).
Proof.
  intros Hc. unfold number.
  destruct (while_char_total py_isdigit (fuel_for s) "" s Hc (fuel_for_enough s))
    as (whole & s1 & E & C & T & P & _ & _).
  rewrite E. cbn [bind].
  assert (Hint : came_back s
            (n <- py_int whole ;; Ok (new_token INTEGER_CONST (VInt n) s1, s1))).
  { unfold py_int. destruct (int_accepts whole); simpl; auto. }
  destruct (current_char s1) as [c|]; [|exact Hint].
  destruct (Ascii.eqb c dot); [|exact Hint].
  destruct (peek s1) as [p|]; [|exact I].
  destruct (py_isdigit p); [|exact Hint].
  destruct (while_char_total py_isdigit (fuel_for (advance s1)) ""
              (advance s1) (advance_consistent s1) (fuel_for_enough _))
    as (frac & s3 & E3 & C3 & T3 & P3 & _ & _).
  cbv zeta. rewrite E3. simpl.
  rewrite advance_text in T3. rewrite advance_pos in P3.
  unfold py_float.
  destruct (float_accepts whole frac); simpl; auto.
  repeat split; auto; [congruence | lia].
Qed.

Lemma identifier_total (s : Lexer) : consistent s -> came_back s (identifier s).
Proof.
  intros Hc. unfold identifier.
  destruct (while_char_total py_isalpha (fuel_for s) "" s Hc (fuel_for_enough s))
    as (name & s1 & E & C & T & P & _ & _).
  rewrite E. simpl. auto.
Qed.

Lemma single_total (ty : TokenType) (s : Lexer) : came_back s (single ty s).
Proof.
  unfold single. simpl. rewrite advance_text, advance_pos.
  repeat split; auto using advance_consistent.
Qed.

Lemma with_equal_total (ty ty_eq : TokenType) (s : Lexer) :
  came_back s (with_equal ty ty_eq s).
Proof.
  unfold with_equal.
  destruct (current_char (advance s)) as [c|]; [destruct (Ascii.eqb c "=")|];
    simpl; rewrite ?advance_text, ?advance_pos;
    repeat split; auto using advance_consistent.
Qed.

Lemma classify_total (c : ascii) (s : Lexer) :
  consistent s -> came_back s (classify c s).
Proof.
  intros Hc. unfold classify.
  repeat match goal with
  | |- came_back _ (if ?b then _ else _) => destruct b
  end;
  auto using number_total, identifier_total, single_total, with_equal_total;
  simpl; rewrite ?advance_text, ?advance_pos;
  repeat split; auto using advance_consistent.
Qed.

Lemma get_next_token_loop_total (fuel : nat) :
  forall s : Lexer,
    consistent s ->
    String.length (text s) - pos s < fuel ->
    came_back s (get_next_token_loop fuel s).
Proof.
  induction fuel as [|fuel IH]; intros s Hc Hf; [lia|].
  simpl. destruct (current_char s) as [c|] eqn:Ecur.
  - assert (Hlt : pos s < String.length (text s)).
    { apply get_some_lt with c. now rewrite <- Hc. }
    destruct (py_isspace c) eqn:Esp.
    + destruct (skip_whitespace_total s Hc) as (s1 & E & C & T & P).
      rewrite E. simpl. specialize (P c Ecur Esp).
      assert (H := IH s1 C ltac:(rewrite T; lia)).
      destruct (get_next_token_loop fuel s1) as [[t s']| |]; simpl in *; auto.
      destruct H as (H1 & H2 & H3). repeat split; auto; [congruence | lia].
    + destruct (Ascii.eqb c "{").
      * destruct (skip_comments_total s Hc) as [[e E]|(s1 & E & C & T & P)];
          rewrite E; simpl; [exact I|].
        assert (H := IH s1 C ltac:(rewrite T; lia)).
        destruct (get_next_token_loop fuel s1) as [[t s']| |]; simpl in *; auto.
        destruct H as (H1 & H2 & H3). repeat split; auto; [congruence | lia].
      * now apply classify_total.
  - simpl. auto.
Qed.

(** [get_next_token] never runs out of fuel: each call returns a token or
    raises. *)
Theorem get_next_token_total (s : Lexer) :
  consistent s -> came_back s (get_next_token s).
Proof.
  intros Hc. apply get_next_token_loop_total; [exact Hc | apply fuel_for_enough].
Qed.

(** ** Fuel is irrelevant once it suffices *)

(** The state a character loop ends in depends neither on the fuel nor on
    the string accumulated so far. *)
Lemma while_char_state_unique (test : ascii -> bool) (f : nat) :
  forall (f' : nat) (acc acc' a a' : string) (s s1 s1' : Lexer),
    while_char test f acc s = Ok (a, s1) ->
    while_char test f' acc' s = Ok (a', s1') ->
    s1 = s1'.
Proof.
  induction f as [|f IH]; intros f' acc acc' a a' s s1 s1' H H'; [discriminate|].
  destruct f' as [|f']; [discriminate|].
  simpl in H, H'. destruct (current_char s) as [c|]; [|congruence].
  destruct (test c); [|congruence].
  exact (IH _ _ _ _ _ _ _ _ H H').
Qed.

Lemma get_next_token_loop_mono (f : nat) :
  forall (s : Lexer) (r : result (Token * Lexer)),
    get_next_token_loop f s = r -> r <> OutOfFuel ->
    get_next_token_loop (S f) s = r.
Proof.
  induction f as [|f IH]; intros s r H Hr; [simpl in H; congruence|].
  remember (S f) as g eqn:Eg. simpl. rewrite Eg in H. simpl in H.
  destruct (current_char s) as [c|]; [|exact H].
  destruct (py_isspace c).
  - destruct (skip_whitespace s) as [s1| |]; simpl in *; auto;
      rewrite Eg; now apply IH.
  - destruct (Ascii.eqb c "{"); [|exact H].
    destruct (skip_comments s) as [s1| |]; simpl in *; auto;
      rewrite Eg; now apply IH.
Qed.

Lemma get_next_token_loop_mono_le (f f' : nat) (s : Lexer)
    (r : result (Token * Lexer)) :
  get_next_token_loop f s = r -> r <> OutOfFuel -> f <= f' ->
  get_next_token_loop f' s = r.
Proof.
  intros H Hr Hle. induction Hle as [|f' Hle IH]; [exact H|].
  now apply get_next_token_loop_mono.
Qed.

Lemma came_back_not_out_of_fuel (s : Lexer) (r : result (Token * Lexer)) :
  came_back s r -> r <> OutOfFuel.
Proof. intros H E; subst r; exact H. Qed.

(** Any sufficient fuel gives the result of [get_next_token]. *)
Lemma get_next_token_loop_enough (f : nat) (s : Lexer) :
  consistent s ->
  String.length (text s) - pos s < f ->
  get_next_token_loop f s = get_next_token s.
Proof.
  intros Hc Hf. unfold get_next_token.
  assert (H1 := came_back_not_out_of_fuel _ _ (get_next_token_loop_total f s Hc Hf)).
  assert (H2 := came_back_not_out_of_fuel _ _ (get_next_token_total s Hc)).
  unfold get_next_token in H2.
  destruct (Nat.le_ge_cases f (fuel_for s)) as [L|L].
  - symmetry. now apply (get_next_token_loop_mono_le f (fuel_for s)).
  - now apply (get_next_token_loop_mono_le (fuel_for s) f).
Qed.

Lemma advance_n_current (n : nat) (s : Lexer) :
  consistent s ->
  current_char (advance_n n s) = String.get (pos s + n) (text s).
Proof.
  intros Hc. rewrite (advance_n_consistent n s Hc).
  now rewrite advance_n_pos, advance_n_text.
Qed.

(** ** Skipping whitespace and comments *)

(** One iteration of each loop. *)
Lemma while_char_S (test : ascii -> bool) (f : nat) (acc : string) (s : Lexer) :
  while_char test (S f) acc s =
  match current_char s with
  | None => Ok (acc, s)
  | Some c =>
      if test c
      then while_char test f (acc ++ String c EmptyString) (advance s)
      else Ok (acc, s)
  end.
Proof. reflexivity. Qed.

Lemma get_next_token_loop_S (f : nat) (s : Lexer) :
  get_next_token_loop (S f) s =
  match current_char s with
  | None => Ok (eof_token, s)
  | Some c =>
      if py_isspace c then
        s1 <- skip_whitespace s ;; get_next_token_loop f s1
      else if Ascii.eqb c "{" then
        s1 <- skip_comments s ;; get_next_token_loop f s1
      else classify c s
  end.
Proof. reflexivity. Qed.

Lemma get_next_token_unfold (s : Lexer) :
  get_next_token s = get_next_token_loop (S (S (String.length (text s)))) s.
Proof. reflexivity. Qed.


(** A call that starts on a whitespace character gives what the call gives
    that starts one character later. *)
Lemma whitespace_step (s : Lexer) (c : ascii) :
  consistent s -> current_char s = Some c -> py_isspace c = true ->
  get_next_token s = get_next_token (advance s).
Proof.
  intros Hc Ecur Esp.
  assert (Hlt : pos s < String.length (text s)).
  { apply get_some_lt with c. now rewrite <- Hc. }
  destruct (skip_whitespace_total s Hc) as (s2 & E2 & C2 & T2 & P2).
  specialize (P2 c Ecur Esp).
  rewrite (get_next_token_unfold s), get_next_token_loop_S, Ecur, Esp, E2.
  cbn [bind].
  rewrite get_next_token_loop_enough; [|exact C2|rewrite T2; lia].
  (* the state after the whitespace run, seen from one character later *)
  unfold skip_whitespace, fuel_for in E2.
  rewrite while_char_S, Ecur, Esp in E2.
  destruct (while_char py_isspace (S (String.length (text s)))
              ("" ++ String c "") (advance s)) as [[a s2']| |] eqn:W;
    cbn [bind] in E2; try discriminate.
  injection E2 as ->.
  rewrite while_char_S in W.
  destruct (current_char (advance s)) as [c'|] eqn:Ecur'.
  - destruct (py_isspace c') eqn:Esp'.
    + destruct (skip_whitespace_total (advance s) (advance_consistent s))
        as (s3 & E3 & C3 & T3 & P3).
      rewrite (get_next_token_unfold (advance s)), get_next_token_loop_S.
      rewrite Ecur', Esp', E3. cbn [bind].
      rewrite get_next_token_loop_enough;
        [|exact C3|rewrite T3, advance_text; lia].
      unfold skip_whitespace, fuel_for in E3.
      rewrite while_char_S, Ecur', Esp' in E3.
      destruct (while_char py_isspace (S (String.length (text (advance s))))
                  ("" ++ String c' "") (advance (advance s)))
        as [[a3 s3']| |] eqn:W3; cbn [bind] in E3; try discriminate.
      injection E3 as ->.
      now rewrite (while_char_state_unique _ _ _ _ _ _ _ _ _ _ W W3).
    + now injection W as _ ->.
  - now injection W as _ ->.
Qed.

(** A call that starts on the [{] of a closed comment gives what the call
    gives that starts behind the closing [}]. *)
Lemma comment_step (s : Lexer) (done body rest : string) :
  consistent s ->
  text s = done ++ String "{" (body ++ String rbrace rest) ->
  pos s = String.length done ->
  string_forallb not_rbrace body = true ->
  get_next_token s = get_next_token (advance_n (S (S (String.length body))) s).
Proof.
  intros Hc Ht Hp Hbody.
  assert (Ecur : current_char s = Some "{"%char).
  { now rewrite Hc, Ht, Hp, get_app_here. }
  assert (Hlt : pos s < String.length (text s)).
  { apply get_some_lt with "{"%char. now rewrite <- Hc. }
  assert (Es : skip_comments s = Ok (advance_n (S (S (String.length body))) s)).
  { unfold skip_comments.
    rewrite (while_char_run not_rbrace (String "{" body) done
               (String rbrace rest) "" s (fuel_for s) Hc Ht Hp).
    - cbn [bind String.length].
      rewrite advance_n_current by exact Hc.
      rewrite Ht, Hp.
      replace (String.length done + S (String.length body))
        with (String.length (done ++ String "{" body))
        by (rewrite length_app; reflexivity).
      replace (done ++ String "{" (body ++ String rbrace rest))
        with ((done ++ String "{" body) ++ String rbrace rest)
        by (rewrite app_assoc; reflexivity).
      rewrite get_app_here. reflexivity.
    - simpl. exact Hbody.
    - reflexivity.
    - unfold fuel_for. rewrite Ht, length_app. simpl. rewrite length_app.
      simpl. lia. }
  rewrite (get_next_token_unfold s), get_next_token_loop_S, Ecur.
  change (py_isspace "{") with false. change (Ascii.eqb "{" "{") with true.
  cbv iota. rewrite Es. cbn [bind].
  apply get_next_token_loop_enough.
  - now apply advance_n_consistent.
  - rewrite advance_n_text, advance_n_pos. lia.
Qed.

(** A call that starts in front of a skippable stretch gives what the call
    gives that starts behind it. *)
Lemma skip_prefix (pre : string) :
  skippable pre ->
  forall (done rest : string) (s : Lexer),
    consistent s ->
    text s = done ++ pre ++ rest ->
    pos s = String.length done ->
    get_next_token s = get_next_token (advance_n (String.length pre) s).
Proof.
  induction 1 as [|c pre Hsp _ IH|body pre Hbody _ IH];
    intros done rest s Hc Ht Hp.
  - reflexivity.
  - rewrite (whitespace_step s c Hc); [| |exact Hsp].
    + change (String.length (String c pre)) with (S (String.length pre)).
      rewrite advance_n_succ.
      apply (IH (done ++ String c "") rest).
      * apply advance_consistent.
      * rewrite advance_text, Ht, app_assoc. reflexivity.
      * rewrite advance_pos, Hp, length_app. simpl. lia.
    + rewrite Hc, Ht, Hp. apply get_app_here.
  - assert (Ht' : text s
                  = done ++ String "{" (body ++ String rbrace (pre ++ rest))).
    { rewrite Ht. simpl. now rewrite app_assoc. }
    rewrite (comment_step s done body (pre ++ rest) Hc Ht' Hp Hbody).
    rewrite (IH (done ++ String "{" (body ++ String rbrace "")) rest).
    + rewrite <- advance_n_add. f_equal. f_equal.
      simpl. rewrite length_app. simpl. lia.
    + now apply advance_n_consistent.
    + rewrite advance_n_text, Ht'. rewrite !app_assoc. simpl.
      rewrite app_assoc. reflexivity.
    + rewrite advance_n_pos, Hp, length_app. simpl. rewrite length_app.
      simpl. lia.
Qed.

(** ** What single calls do *)

(** On an underscore the identifier loop does not iterate. *)
Lemma underscore_stuck (s : Lexer) :
  current_char s = Some "_"%char ->
  get_next_token s
  = Ok ({| type := IDENT; value := VStr ""; line := lineno s;
           col := column s |}, s).
Proof.
  intros Ecur.
  rewrite get_next_token_unfold, get_next_token_loop_S, Ecur.
  change (py_isspace "_") with false. change (Ascii.eqb "_" "{") with false.
  cbv iota. unfold classify.
  change (py_isdigit "_") with false. change (isalpha "_") with true.
  cbv iota. unfold identifier, fuel_for.
  rewrite while_char_S, Ecur.
  reflexivity.
Qed.

(** A call that returns without changing the state returns the same token
    at every later call. *)
Lemma nth_call_fixed (s : Lexer) (t : Token) :
  get_next_token s = Ok (t, s) -> forall n, nth_call n s = Ok (t, s).
Proof.
  intros H n. induction n as [|n IH]; simpl; [exact H|].
  rewrite H. simpl. exact IH.
Qed.

Lemma nth_call_succ (n : nat) (s s1 : Lexer) (t : Token) :
  get_next_token s = Ok (t, s1) -> nth_call (S n) s = nth_call n s1.
Proof. intros H. simpl. now rewrite H. Qed.

Lemma recognised_false (c : ascii) :
  recognised c = false ->
  py_isspace c = false /\ Ascii.eqb c "{" = false /\ py_isdigit c = false
  /\ isalpha c = false /\ string_mem c "+-*/();.:,<>!" = false.
Proof.
  unfold recognised. intros H.
  do 4 (apply orb_false_iff in H; destruct H as [H ?]).
  repeat split; assumption.
Qed.

(** On a character no branch accepts the call ends in [self.error()]. *)
Lemma illegal_raises (s : Lexer) (c : ascii) :
  current_char s = Some c -> recognised c = false ->
  get_next_token s = error s.
Proof.
  intros Ecur H.
  destruct (recognised_false c H) as (H1 & H2 & H3 & H4 & H5).
  rewrite get_next_token_unfold, get_next_token_loop_S, Ecur, H1, H2.
  unfold classify. rewrite H3, H4.
  simpl in H5.
  repeat (apply orb_false_iff in H5; destruct H5 as [?E H5]).
  repeat match goal with
  | E : Ascii.eqb c _ = false |- _ => rewrite E; clear E
  end.
  reflexivity.
Qed.

(** On a comment that is not closed [skip_comments] runs to the end of the
    text and raises there. *)
Lemma unterminated_raises (s : Lexer) (done body : string) :
  consistent s ->
  text s = done ++ String "{" body ->
  pos s = String.length done ->
  string_forallb not_rbrace body = true ->
  get_next_token s = error (advance_n (S (String.length body)) s).
Proof.
  intros Hc Ht Hp Hbody.
  assert (Ecur : current_char s = Some "{"%char).
  { now rewrite Hc, Ht, Hp, get_app_here. }
  assert (Ht' : text s = done ++ String "{" body ++ "").
  { now rewrite app_empty_r. }
  rewrite get_next_token_unfold, get_next_token_loop_S, Ecur.
  change (py_isspace "{") with false. change (Ascii.eqb "{" "{") with true.
  cbv iota. unfold skip_comments.
  rewrite (while_char_run not_rbrace (String "{" body) done "" "" s
             (fuel_for s) Hc Ht' Hp).
  - cbn [bind String.length].
    rewrite advance_n_current by exact Hc.
    rewrite Ht, Hp.
    replace (String.length done + S (String.length body))
      with (String.length (done ++ String "{" body))
      by (rewrite length_app; reflexivity).
    rewrite get_app_end. reflexivity.
  - simpl. exact Hbody.
  - exact I.
  - unfold fuel_for. rewrite Ht, length_app. simpl. lia.
Qed.

(** ** Only the end of the text gives [EOF] *)

Ltac break_result H :=
  repeat match type of H with
  | bind ?r _ = _ => destruct r eqn:?; cbn [bind] in H; try discriminate H
  | context [match ?x with _ => _ end] =>
      destruct x eqn:?; cbn [bind] in H; try discriminate H
  | context [if ?b then _ else _] =>
      destruct b eqn:?; cbn [bind] in H; try discriminate H
  end.

Ltac token_of H :=
  first [ discriminate H
        | injection H as <- <-; cbn [type new_token]; try discriminate ].

Lemma dict_get_reserved_not_eof (name : string) :
  dict_get reserved_keywords name IDENT <> EOF.
Proof.
  unfold reserved_keywords. cbn [dict_get].
  repeat match goal with
  | |- (if ?b then _ else _) <> _ => destruct b; [discriminate|]
  end.
  discriminate.
Qed.

Lemma number_not_eof (s : Lexer) (t : Token) (s' : Lexer) :
  number s = Ok (t, s') -> type t <> EOF.
Proof.
  unfold number, py_int, py_float. intros H. break_result H; token_of H.
Qed.

Lemma identifier_not_eof (s : Lexer) (t : Token) (s' : Lexer) :
  identifier s = Ok (t, s') -> type t <> EOF.
Proof.
  unfold identifier. intros H. break_result H. token_of H.
  apply dict_get_reserved_not_eof.
Qed.

Lemma classify_not_eof (c : ascii) (s : Lexer) (t : Token) (s' : Lexer) :
  classify c s = Ok (t, s') -> type t <> EOF.
Proof.
  unfold classify, single, with_equal, error. intros H.
  repeat match type of H with
  | (if ?b then _ else _) = _ => destruct b
  end;
  eauto using number_not_eof, identifier_not_eof;
  break_result H; token_of H.
Qed.

Lemma get_next_token_loop_eof (f : nat) :
  forall (s : Lexer) (t : Token) (s' : Lexer),
    get_next_token_loop f s = Ok (t, s') -> type t = EOF ->
    current_char s' = None /\ t = eof_token.
Proof.
  induction f as [|f IH]; intros s t s' H Ht; [discriminate|].
  rewrite get_next_token_loop_S in H.
  destruct (current_char s) as [c|] eqn:Ecur.
  - destruct (py_isspace c).
    + destruct (skip_whitespace s) as [s1| |]; cbn [bind] in H;
        try discriminate. eauto.
    + destruct (Ascii.eqb c "{").
      * destruct (skip_comments s) as [s1| |]; cbn [bind] in H;
          try discriminate. eauto.
      * apply classify_not_eof in H. contradiction.
  - injection H as <- <-. auto.
Qed.

Lemma get_next_token_at_end (s : Lexer) :
  current_char s = None -> get_next_token s = Ok (eof_token, s).
Proof.
  intros H. now rewrite get_next_token_unfold, get_next_token_loop_S, H.
Qed.

(** ** Words *)

Ltac all_chars c := destruct c as [[|] [|] [|] [|] [|] [|] [|] [|]].

(** A letter reaches the identifier branch of the dispatcher. *)
Lemma letter_dispatch (c : ascii) :
  py_isalpha c = true ->
  py_isspace c = false /\ Ascii.eqb c "{" = false /\ py_isdigit c = false
  /\ isalpha c = true.
Proof. all_chars c; vm_compute; intros H; try discriminate H; auto. Qed.

Lemma upper_is_letter (c : ascii) :
  in_range 65 90 (ascii_upper c) = true -> py_isalpha c = true.
Proof. all_chars c; vm_compute; intros H; try discriminate H; auto. Qed.

Lemma upper_word_letters (w : string) :
  string_forallb (in_range 65 90) (string_upper w) = true ->
  string_forallb py_isalpha w = true.
Proof.
  induction w as [|c w IH]; simpl; [trivial|].
  intros H. apply andb_true_iff in H as [H1 H2].
  now rewrite (upper_is_letter c H1), IH.
Qed.

(** On a text that is one word of letters, the first call returns the whole
    word, with the kind the keyword table gives it. *)
Lemma word_first_token (w : string) :
  w <> "" ->
  string_forallb py_isalpha w = true ->
  exists s s',
    Lexer_init w = Ok s
    /\ get_next_token s
       = Ok (new_token (dict_get reserved_keywords w IDENT) (VStr w) s', s').
Proof.
  intros Hne Hall. destruct w as [|c w]; [congruence|].
  pose (s := {| text := String c w; pos := 0; current_char := Some c;
                lineno := 1; column := 1 |}).
  exists s, (advance_n (String.length (String c w)) s).
  split; [reflexivity|].
  assert (Hc : py_isalpha c = true).
  { simpl in Hall. now apply andb_true_iff in Hall as [H _]. }
  destruct (letter_dispatch c Hc) as (H1 & H2 & H3 & H4).
  rewrite get_next_token_unfold, get_next_token_loop_S.
  change (current_char s) with (Some c). cbv beta iota.
  rewrite H1, H2. unfold classify. rewrite H3, H4.
  unfold identifier.
  rewrite (while_char_run py_isalpha (String c w) "" "" "" s (fuel_for s)).
  - reflexivity.
  - reflexivity.
  - simpl. now rewrite app_empty_r.
  - reflexivity.
  - exact Hall.
  - exact I.
  - unfold fuel_for. simpl. lia.
Qed.

Lemma keyword_spelling (kw : string) (ty : TokenType) :
  In (kw, ty) reserved_keywords ->
  kw <> "" /\ string_forallb (in_range 65 90) kw = true
  /\ string_upper kw = kw /\ dict_get reserved_keywords kw IDENT = ty.
Proof.
  unfold reserved_keywords. simpl.
  intros H.
  repeat (destruct H as [H|H];
          [injection H as <- <-;
           repeat split; try reflexivity; discriminate|]).
  contradiction.
Qed.

Lemma other_casing_not_keyword (kw w : string) (ty : TokenType) :
  In (kw, ty) reserved_keywords -> string_upper w = kw -> w <> kw ->
  dict_get reserved_keywords w IDENT = IDENT.
Proof.
  intros Hin Hup Hne. unfold reserved_keywords. cbn [dict_get].
  repeat match goal with
  | |- (if String.eqb ?k w then _ else _) = _ =>
      destruct (String.eqb_spec k w) as [E|E];
      [exfalso; apply Hne; rewrite <- E in Hup; vm_compute in Hup; congruence
      |clear E]
  end.
  reflexivity.
Qed.

(** ** Advancing at the end of the text *)

Lemma advance_at_end (s : Lexer) :
  String.length (text s) <= pos s ->
  current_char (advance s) = None /\ lineno (advance s) = lineno s
  /\ column (advance s) = column s.
Proof.
  intros H.
  assert (E : current_char (advance s) = None).
  { rewrite advance_current. apply get_none. lia. }
  split; [exact E|].
  unfold advance in *. rewrite guarded_get in *.
  destruct (String.get (pos s + 1) (text s)) as [c|] eqn:G.
  - destruct (is_newline (Some c)); discriminate E.
  - simpl. auto.
Qed.

(** What [advance] does to the counters: the line is counted when the cursor
    arrives on a newline, and nothing else changes the column. *)
Lemma advance_counters (s : Lexer) :
  (lineno (advance s), column (advance s))
  = if is_newline (current_char (advance s))
    then (lineno s + 1, 1)
    else (lineno s, column s).
Proof.
  unfold advance.
  destruct (is_newline _) eqn:E; simpl; rewrite E; reflexivity.
Qed.

(** ** The scanner on sample texts *)

Example statement_kinds :
  kinds 11 "x := (a + b) * 2;"
  = map Some [IDENT; ASSIGN; LPAREN; IDENT; PLUS; IDENT; RPAREN; MUL;
              INTEGER_CONST; SEMI; EOF].
Proof. reflexivity. Qed.

Example compound_operator_kinds :
  kinds 9 ": := < <= > >= ! !="
  = map Some [COLON; ASSIGN; LESS; LESS_EQUAL; GREATER; GREATER_EQUAL; BANG;
              BANG_EQUAL; EOF].
Proof. reflexivity. Qed.

(** [3.14] is [0x1.91eb851eb851fp+1]. *)
Example real_literal :
  scan 0 "3.14"
  = Ok ({| type := REAL_CONST;
           value := VFloat (S754_finite false 7070651414971679 (-51));
           line := 1; col := 1 |},
        {| text := "3.14"; pos := 4; current_char := None;
           lineno := 1; column := 1 |}).
Proof. vm_compute. reflexivity. Qed.

(** Rounding of decimals: [0.1]; a tie, [2 ^ 53 + 1], that goes to the even
    mantissa, and [2 ^ 53 + 3], that goes up to it; the smallest subnormal
    and half of it; the largest finite number and the overflow behind it;
    an exact value. *)
Example float_of_decimal_samples :
  float_of_decimal 1 1 = S754_finite false 7205759403792794 (-56)
  /\ float_of_decimal 90071992547409930 1
     = S754_finite false 4503599627370496 1
  /\ float_of_decimal 90071992547409950 1
     = S754_finite false 4503599627370498 1
  /\ float_of_decimal 49406564584124654 340 = S754_finite false 1 (-1074)
  /\ float_of_decimal 24703282292062327 340 = S754_zero false
  /\ float_of_decimal (17976931348623157 * 10 ^ 292) 0
     = S754_finite false 9007199254740991 971
  /\ float_of_decimal (17976931348623159 * 10 ^ 292) 0
     = S754_infinity false
  /\ float_of_decimal 25 1 = S754_finite false 5629499534213120 (-51)
  /\ float_of_decimal 0 3 = S754_zero false.
Proof. vm_compute. repeat split. Qed.

(** A dot that a character other than a digit follows is left to the next
    call. *)
Example dot_before_letter :
  scan 0 "3.x"
  = Ok ({| type := INTEGER_CONST; value := VInt 3; line := 1; col := 1 |},
        {| text := "3.x"; pos := 1; current_char := Some "."%char;
           lineno := 1; column := 1 |})
  /\ kinds 3 "3.x" = map Some [INTEGER_CONST; DOT; IDENT].
Proof. split; reflexivity. Qed.

(** A lone [=] and a lone [}] match no branch. *)
Example equal_sign_is_illegal :
  scan 0 "=" = Raise (PyException "Lexer error on '=' line: 1 column: 1")
  /\ scan 0 "}" = Raise (PyException "Lexer error on '}' line: 1 column: 1").
Proof. split; reflexivity. Qed.

(** * The claims *)

(** C1.  For the empty input string the claim expects one [EOF] token and no
    error.  The constructor reads [self.text[0]] without the guard that
    [advance] and [peek] have, so it raises [IndexError] before any token can
    be asked for. *)
Theorem empty_input_raises_index_error :
  Lexer_init "" = Raise IndexError /\ scan 0 "" = Raise IndexError.
Proof. split; reflexivity. Qed.

(** C2.  The claim expects [advance] to increment the column after a
    character that is not a newline and to increment the line after a
    consumed newline.  On ["ab"] the column is 1 before and after the [a] is
    consumed; on a newline followed by [b] the line is 1 before and after the
    newline is consumed. *)
Theorem advance_misses_column_and_line :
  (exists s,
      Lexer_init "ab" = Ok s /\ current_char s = Some "a"%char
      /\ pos (advance s) = 1 /\ column s = 1 /\ column (advance s) = 1)
  /\ (exists s,
        Lexer_init (String newline "b") = Ok s
        /\ current_char s = Some newline
        /\ pos (advance s) = 1 /\ lineno s = 1 /\ lineno (advance s) = 1).
Proof.
  split; eexists; (split; [reflexivity|]); repeat split.
Qed.

(** C3.  For the input ["3."] the claim expects the integer 3 and then a
    [DOT].  With the dot as last character [peek] returns [None], and
    [number] calls [isdigit] on it: the first call raises
    [AttributeError]. *)
Theorem trailing_dot_at_end_raises :
  scan 0 "3." = Raise AttributeError.
Proof. reflexivity. Qed.

(** C4.  For the input ["x1_y"] the claim expects one identifier [x1_y].
    The loop of [identifier] tests [str.isalpha], so it stops at the digit:
    the first token is the identifier [x], the second the integer 1, the
    third an identifier with the empty name. *)
Theorem identifier_stops_at_first_non_letter :
  scan 0 "x1_y"
  = Ok ({| type := IDENT; value := VStr "x"; line := 1; col := 1 |},
        {| text := "x1_y"; pos := 1; current_char := Some "1"%char;
           lineno := 1; column := 1 |})
  /\ scan 1 "x1_y"
     = Ok ({| type := INTEGER_CONST; value := VInt 1; line := 1; col := 1 |},
           {| text := "x1_y"; pos := 2; current_char := Some "_"%char;
              lineno := 1; column := 1 |})
  /\ scan 2 "x1_y"
     = Ok ({| type := IDENT; value := VStr ""; line := 1; col := 1 |},
           {| text := "x1_y"; pos := 2; current_char := Some "_"%char;
              lineno := 1; column := 1 |}).
Proof. repeat split. Qed.

(** The message of [Lexer.error], in general.  Behind any stretch of
    whitespace and comments, an illegal character and a comment that is not
    closed make [get_next_token] raise a plain [Exception] whose message is
    ["Lexer error on '<char>' line: <n> column: <m>"], with the offending
    character (the text [None] at the end of the input) and the line and
    column counters of the scanner at that point. *)
Lemma lexer_error_is_plain_exception (s : Lexer) (done pre : string) :
  consistent s ->
  pos s = String.length done ->
  skippable pre ->
  (forall (c : ascii) (rest : string),
      text s = done ++ pre ++ String c rest ->
      recognised c = false ->
      let s' := advance_n (String.length pre) s in
      get_next_token s
      = Raise (PyException (error_message (Some c) (lineno s') (column s'))))
  /\ (forall body : string,
        text s = done ++ pre ++ String "{" body ->
        string_forallb not_rbrace body = true ->
        let s' := advance_n (String.length pre + S (String.length body)) s in
        get_next_token s
        = Raise (PyException (error_message None (lineno s') (column s')))).
Proof.
  intros Hc Hp Hpre. split.
  - intros c rest Ht Hill s'.
    rewrite (skip_prefix pre Hpre done (String c rest) s Hc Ht Hp).
    fold s'.
    assert (Ecur : current_char s' = Some c).
    { unfold s'. rewrite advance_n_current by exact Hc.
      rewrite Ht, Hp, <- length_app, <- app_assoc. apply get_app_here. }
    rewrite (illegal_raises s' c Ecur Hill). unfold error. now rewrite Ecur.
  - intros body Ht Hbody s'.
    rewrite (skip_prefix pre Hpre done (String "{" body) s Hc Ht Hp).
    rewrite (unterminated_raises (advance_n (String.length pre) s)
               (done ++ pre) body).
    + rewrite <- advance_n_add. fold s'. unfold error.
      replace (current_char s') with (@None ascii); [reflexivity|].
      unfold s'. rewrite advance_n_current by exact Hc.
      rewrite Ht, Hp. symmetry. apply get_none.
      rewrite !length_app. simpl. lia.
    + now apply advance_n_consistent.
    + rewrite advance_n_text, Ht, app_assoc. reflexivity.
    + rewrite advance_n_pos, Hp, length_app. reflexivity.
    + exact Hbody.
Qed.

Lemma lexer_error_is_plain_exception_witness :
  get_next_token {| text := "  @"; pos := 0; current_char := Some " "%char;
                    lineno := 1; column := 1 |}
  = Raise (PyException "Lexer error on '@' line: 1 column: 1")
  /\ get_next_token {| text := " { open"; pos := 0;
                       current_char := Some " "%char;
                       lineno := 1; column := 1 |}
     = Raise (PyException "Lexer error on 'None' line: 1 column: 1").
Proof.
  split.
  - refine (proj1 (lexer_error_is_plain_exception
                     {| text := "  @"; pos := 0;
                        current_char := Some " "%char;
                        lineno := 1; column := 1 |} "" "  " _ _ _)
                  "@"%char "" _ _).
    + reflexivity.
    + reflexivity.
    + apply skip_space; [reflexivity|].
      apply skip_space; [reflexivity|]. apply skip_nil.
    + reflexivity.
    + reflexivity.
  - refine (proj2 (lexer_error_is_plain_exception
                     {| text := " { open"; pos := 0;
                        current_char := Some " "%char;
                        lineno := 1; column := 1 |} "" " " _ _ _)
                  " open" _ _).
    + reflexivity.
    + reflexivity.
    + apply skip_space; [reflexivity|]. apply skip_nil.
    + reflexivity.
    + reflexivity.
Defined.

(** C5.  The claim expects the scanner's own error type, [LexerError], on
    an illegal character and on a comment that is not closed.  The class is
    declared but [Lexer.error] raises a plain [Exception]: on ["@"], on
    ["{ open"] and on [@] in the second line of a text the call raises
    [Exception] with the message of the claimed format (character, then
    line, then column), and it does not raise [LexerError]. *)
Theorem lexer_error_is_not_LexerError :
  scan 0 "@" = Raise (PyException "Lexer error on '@' line: 1 column: 1")
  /\ scan 0 "{ open"
     = Raise (PyException "Lexer error on 'None' line: 1 column: 1")
  /\ scan 1 (String "a" (String newline "@"))
     = Raise (PyException "Lexer error on '@' line: 2 column: 1")
  /\ ~ (exists m, scan 0 "@" = Raise (LexerError m))
  /\ ~ (exists m, scan 0 "{ open" = Raise (LexerError m)).
Proof.
  repeat split; try reflexivity; intros [m H]; vm_compute in H; discriminate H.
Qed.

(** C6, as the claim states it, fails: past the end of ["a"] one more
    [advance] moves [pos] to 2, beyond the length 1 of the text, so the call
    is not a no-op. *)
Lemma advance_past_end_moves_pos :
  exists s,
    Lexer_init "a" = Ok s
    /\ current_char (advance s) = None
    /\ pos (advance s) = String.length (text s)
    /\ current_char (advance (advance s)) = None
    /\ String.length (text s) < pos (advance (advance s)).
Proof. eexists. split; [reflexivity|]. simpl. repeat split. lia. Qed.

(** C6, amended.  Once the cursor is past the end of the input, any number
    [n] of further calls of [advance] leaves the current character at the
    sentinel and the text, line and column as they are; each call still
    increments [pos], which ends [n] beyond where it was. *)
Theorem advance_past_end_keeps_sentinel (s : Lexer) (n : nat) :
  current_char s = None ->
  String.length (text s) <= pos s ->
  current_char (advance_n n s) = None
  /\ pos (advance_n n s) = pos s + n
  /\ text (advance_n n s) = text s
  /\ lineno (advance_n n s) = lineno s
  /\ column (advance_n n s) = column s.
Proof.
  intros Hcur Hpos. induction n as [|n IH].
  - simpl. repeat split; auto.
  - change (advance_n (S n) s) with (advance (advance_n n s)).
    destruct IH as (I1 & I2 & I3 & I4 & I5).
    destruct (advance_at_end (advance_n n s)) as (A1 & A2 & A3).
    { rewrite I3, I2. lia. }
    rewrite advance_pos, advance_text.
    repeat split; try congruence. lia.
Qed.

Lemma advance_past_end_keeps_sentinel_witness :
  let s := {| text := "a"; pos := 1; current_char := None;
              lineno := 1; column := 1 |} in
  current_char (advance_n 3 s) = None
  /\ pos (advance_n 3 s) = 1 + 3
  /\ text (advance_n 3 s) = "a"
  /\ lineno (advance_n 3 s) = 1
  /\ column (advance_n 3 s) = 1.
Proof.
  apply (advance_past_end_keeps_sentinel
           {| text := "a"; pos := 1; current_char := None;
              lineno := 1; column := 1 |} 3).
  - reflexivity.
  - simpl. lia.
Defined.

(** C7.  The claim expects repeated calls to reach [EOF] or an error after
    finitely many calls.  On the input ["_"] every call returns an
    identifier with the empty name and leaves the scanner where it was: no
    call returns [EOF] and none raises. *)
Theorem underscore_scan_never_ends (n : nat) :
  scan n "_"
  = Ok ({| type := IDENT; value := VStr ""; line := 1; col := 1 |},
        {| text := "_"; pos := 0; current_char := Some "_"%char;
           lineno := 1; column := 1 |}).
Proof.
  unfold scan. cbn [Lexer_init String.get bind].
  apply nth_call_fixed. now apply underscore_stuck.
Qed.

(** C8.  Once [get_next_token] has returned a token of type [EOF], that
    token is [Token(EOF, None)] and every later call returns it again,
    without raising and without moving the scanner. *)
Theorem eof_is_repeated (s : Lexer) (t : Token) (s' : Lexer) :
  get_next_token s = Ok (t, s') ->
  type t = EOF ->
  t = eof_token
  /\ forall n, nth_call n s' = Ok (eof_token, s').
Proof.
  intros H Ht.
  destruct (get_next_token_loop_eof _ _ _ _ H Ht) as [Hcur ->].
  split; [reflexivity|].
  apply nth_call_fixed. now apply get_next_token_at_end.
Qed.

Lemma eof_is_repeated_witness :
  let s := {| text := " "; pos := 0; current_char := Some " "%char;
              lineno := 1; column := 1 |} in
  let s' := {| text := " "; pos := 1; current_char := None;
               lineno := 1; column := 1 |} in
  get_next_token s = Ok (eof_token, s')
  /\ type eof_token = EOF
  /\ nth_call 3 s' = Ok (eof_token, s').
Proof.
  intros s s'.
  assert (H : get_next_token s = Ok (eof_token, s')) by reflexivity.
  assert (Ht : type eof_token = EOF) by reflexivity.
  split; [exact H|]. split; [exact Ht|].
  exact (proj2 (eof_is_repeated s eof_token s' H Ht) 3).
Defined.

(** Another casing of a reserved word is a plain identifier. *)
Lemma other_casing_is_ident (kw w : string) (ty : TokenType) :
  In (kw, ty) reserved_keywords ->
  string_upper w = kw -> w <> kw ->
  first_token_of w IDENT.
Proof.
  intros Hin Hup Hw.
  destruct (keyword_spelling kw ty Hin) as (Hne & Hcaps & Hfix & Hget).
  destruct (word_first_token w) as (s & s' & Hi & Hg).
  { intros ->. apply Hne. now rewrite <- Hup. }
  { apply upper_word_letters. now rewrite Hup. }
  eexists; exists s'. unfold scan. rewrite Hi. cbn [bind nth_call].
  rewrite Hg, (other_casing_not_keyword kw w ty Hin Hup Hw).
  repeat split.
Qed.

(** C9.  Keyword lookup is an exact, case-sensitive match.  Each of the
    texts [PROGRAM], [VAR], [BEGIN], [END], [PROCEDURE], [INTEGER], [REAL]
    and [DIV] gives a token of the keyword kind of that word ([INTEGER_DIV]
    for [DIV]); every text that is one of these words in another casing
    gives a plain [IDENT] token, as [Begin] and [begin] do.  Either token
    carries the text as its value. *)
Theorem keyword_lookup_is_case_sensitive (w : string) :
  (first_token_of "PROGRAM" PROGRAM
   /\ first_token_of "VAR" VAR
   /\ first_token_of "BEGIN" BEGIN
   /\ first_token_of "END" END
   /\ first_token_of "PROCEDURE" PROCEDURE
   /\ first_token_of "INTEGER" INTEGER
   /\ first_token_of "REAL" REAL
   /\ first_token_of "DIV" INTEGER_DIV)
  /\ (In (string_upper w)
         ["PROGRAM"; "VAR"; "BEGIN"; "END"; "PROCEDURE"; "INTEGER"; "REAL";
          "DIV"] ->
      w <> string_upper w ->
      first_token_of w IDENT)
  /\ first_token_of "Begin" IDENT
  /\ first_token_of "begin" IDENT.
Proof.
  assert (Hrun : forall txt ty t s',
             scan 0 txt = Ok (t, s') -> type t = ty -> value t = VStr txt ->
             first_token_of txt ty).
  { intros txt ty t s' H1 H2 H3. now exists t, s'. }
  split; [|split; [|split]].
  - repeat split; eapply Hrun; reflexivity.
  - intros Hin Hw.
    assert (Hkw : exists ty, In (string_upper w, ty) reserved_keywords).
    { unfold reserved_keywords. simpl in Hin.
      repeat (destruct Hin as [<-|Hin]; [eexists; simpl; eauto 10|]).
      contradiction. }
    destruct Hkw as [ty Hkw].
    exact (other_casing_is_ident (string_upper w) w ty Hkw eq_refl Hw).
  - eapply Hrun; reflexivity.
  - eapply Hrun; reflexivity.
Qed.

Lemma keyword_lookup_is_case_sensitive_witness :
  In (string_upper "bEGIN")
    ["PROGRAM"; "VAR"; "BEGIN"; "END"; "PROCEDURE"; "INTEGER"; "REAL"; "DIV"]
  /\ "bEGIN" <> string_upper "bEGIN"
  /\ first_token_of "bEGIN" IDENT.
Proof.
  assert (Hin : In (string_upper "bEGIN")
                  ["PROGRAM"; "VAR"; "BEGIN"; "END"; "PROCEDURE"; "INTEGER";
                   "REAL"; "DIV"]).
  { simpl. do 2 right. left. reflexivity. }
  assert (Hw : "bEGIN" <> string_upper "bEGIN") by discriminate.
  split; [exact Hin|]. split; [exact Hw|].
  exact (proj1 (proj2 (keyword_lookup_is_case_sensitive "bEGIN")) Hin Hw).
Defined.

(** C10.  When the first character behind any stretch of whitespace and
    comments is an underscore, [get_next_token] returns an [IDENT] token
    with the empty string as value and leaves the cursor on the underscore;
    every later call returns the same token from the same state, so no call
    returns [EOF]. *)
Theorem underscore_is_never_consumed (s : Lexer) (done pre rest : string) :
  consistent s ->
  text s = done ++ pre ++ String "_" rest ->
  pos s = String.length done ->
  skippable pre ->
  let s' := advance_n (String.length pre) s in
  let t := {| type := IDENT; value := VStr ""; line := lineno s';
              col := column s' |} in
  current_char s' = Some "_"%char
  /\ pos s' = String.length (done ++ pre)
  /\ get_next_token s = Ok (t, s')
  /\ (forall n, nth_call n s' = Ok (t, s'))
  /\ (forall n, nth_call n s = Ok (t, s')).
Proof.
  intros Hc Ht Hp Hpre s' t.
  assert (Ecur : current_char s' = Some "_"%char).
  { unfold s'. rewrite advance_n_current by exact Hc.
    rewrite Ht, Hp, <- length_app, <- app_assoc. apply get_app_here. }
  assert (Hstuck : get_next_token s' = Ok (t, s')).
  { now apply underscore_stuck. }
  assert (Hfirst : get_next_token s = Ok (t, s')).
  { rewrite (skip_prefix pre Hpre done (String "_" rest) s Hc Ht Hp).
    exact Hstuck. }
  assert (Hlater : forall n, nth_call n s' = Ok (t, s')).
  { now apply nth_call_fixed. }
  repeat split; auto.
  - unfold s'. rewrite advance_n_pos, Hp, length_app. reflexivity.
  - intros [|n]; [exact Hfirst|].
    rewrite (nth_call_succ n s s' t Hfirst). apply Hlater.
Qed.

Lemma underscore_is_never_consumed_witness :
  let s := {| text := "  { abc } _foo"; pos := 0;
              current_char := Some " "%char; lineno := 1; column := 1 |} in
  let s' := {| text := "  { abc } _foo"; pos := 10;
               current_char := Some "_"%char; lineno := 1; column := 1 |} in
  let t := {| type := IDENT; value := VStr ""; line := 1; col := 1 |} in
  current_char s' = Some "_"%char
  /\ pos s' = 10
  /\ get_next_token s = Ok (t, s')
  /\ (forall n, nth_call n s' = Ok (t, s'))
  /\ (forall n, nth_call n s = Ok (t, s')).
Proof.
  apply (underscore_is_never_consumed
           {| text := "  { abc } _foo"; pos := 0;
              current_char := Some " "%char; lineno := 1; column := 1 |}
           "" "  { abc } " "foo").
  - reflexivity.
  - reflexivity.
  - reflexivity.
  - apply skip_space; [reflexivity|].
    apply skip_space; [reflexivity|].
    apply (skip_comment " abc " " "); [reflexivity|].
    apply skip_space; [reflexivity|]. apply skip_nil.
Defined.

(** * Further properties of the scanner *)

(** ** The path of the cursor *)

Lemma moves_trans (s1 s2 s3 : Lexer) :
  moves s1 s2 -> moves s2 s3 -> moves s1 s3.
Proof.
  induction 1 as [s|s c s' Hc _ IH]; intros H; [exact H|].
  apply moves_on with c; auto.
Qed.

Lemma moves_text (s s' : Lexer) : moves s s' -> text s' = text s.
Proof.
  induction 1 as [s|s c s' _ _ IH]; [reflexivity|].
  now rewrite IH, advance_text.
Qed.

Lemma moves_pos (s s' : Lexer) : moves s s' -> pos s <= pos s'.
Proof.
  induction 1 as [s|s c s' _ _ IH]; [lia|].
  rewrite advance_pos in IH. lia.
Qed.

Lemma moves_consistent (s s' : Lexer) :
  moves s s' -> consistent s -> consistent s'.
Proof.
  induction 1 as [s|s c s' _ _ IH]; [trivial|].
  intros _. apply IH, advance_consistent.
Qed.

(** Along such a path the cursor never passes the end of the text. *)
Lemma moves_bound (s s' : Lexer) :
  moves s s' -> consistent s -> pos s <= String.length (text s) ->
  pos s' <= String.length (text s').
Proof.
  induction 1 as [s|s c s' Hc _ IH]; [trivial|].
  intros Hcons _. apply IH; [apply advance_consistent|].
  rewrite advance_pos, advance_text.
  apply get_some_lt with c. now rewrite <- Hcons.
Qed.

Lemma moves_is_advance_n (s s' : Lexer) :
  moves s s' -> s' = advance_n (pos s' - pos s) s.
Proof.
  induction 1 as [s|s c s' _ H IH].
  - now rewrite Nat.sub_diag.
  - apply moves_pos in H. rewrite advance_pos in *.
    replace (pos s' - pos s) with (S (pos s' - S (pos s))) by lia.
    now rewrite advance_n_succ.
Qed.

Lemma while_char_moves (test : ascii -> bool) (f : nat) :
  forall (acc a : string) (s s1 : Lexer),
    while_char test f acc s = Ok (a, s1) -> moves s s1.
Proof.
  induction f as [|f IH]; intros acc a s s1 H; [discriminate|].
  rewrite while_char_S in H.
  destruct (current_char s) as [c|] eqn:E.
  - destruct (test c).
    + apply moves_on with c; eauto.
    + injection H as _ <-. constructor.
  - injection H as _ <-. constructor.
Qed.

Lemma skip_whitespace_moves (s s1 : Lexer) :
  skip_whitespace s = Ok s1 -> moves s s1.
Proof.
  unfold skip_whitespace. intros H.
  destruct (while_char py_isspace (fuel_for s) "" s) as [[a s2]| |] eqn:W;
    cbn [bind] in H; try discriminate.
  injection H as <-. eapply while_char_moves; eauto.
Qed.

Lemma skip_comments_moves (s s1 : Lexer) :
  skip_comments s = Ok s1 -> moves s s1.
Proof.
  unfold skip_comments. intros H.
  destruct (while_char not_rbrace (fuel_for s) "" s) as [[a s2]| |] eqn:W;
    cbn [bind] in H; try discriminate.
  apply while_char_moves in W.
  destruct (current_char s2) as [c|] eqn:E; [|discriminate].
  injection H as <-.
  apply moves_trans with s2; [exact W|].
  apply moves_on with c; [exact E | constructor].
Qed.

Lemma number_moves (s : Lexer) (t : Token) (s' : Lexer) :
  number s = Ok (t, s') -> moves s s' /\ stamped t s'.
Proof.
  unfold number, py_int, py_float. intros H.
  destruct (while_char py_isdigit (fuel_for s) "" s) as [[w s1]| |] eqn:W;
    cbn [bind] in H; try discriminate.
  apply while_char_moves in W.
  assert (Hint : forall r,
             r = (n <- (if int_accepts w
                        then Ok (digits_value 0 w) else Raise ValueError) ;;
                  Ok (new_token INTEGER_CONST (VInt n) s1, s1)) ->
             r = Ok (t, s') -> moves s s' /\ stamped t s').
  { intros r -> Hr. destruct (int_accepts w); cbn [bind] in Hr;
      [|discriminate].
    injection Hr as <- <-. split; [exact W|]. now eexists; eexists. }
  destruct (current_char s1) as [c|] eqn:E; [|eapply Hint; eauto].
  destruct (Ascii.eqb c dot); [|eapply Hint; eauto].
  destruct (peek s1) as [p|]; [|discriminate].
  destruct (py_isdigit p); [|eapply Hint; eauto].
  cbv zeta in H.
  destruct (while_char py_isdigit (fuel_for (advance s1)) "" (advance s1))
    as [[fr s3]| |] eqn:W3; cbn [bind] in H; try discriminate.
  apply while_char_moves in W3.
  destruct (float_accepts w fr); cbn [bind] in H;
    [|discriminate].
  injection H as <- <-. split; [|now eexists; eexists].
  apply moves_trans with s1; [exact W|].
  apply moves_on with c; [exact E | exact W3].
Qed.

Lemma identifier_moves (s : Lexer) (t : Token) (s' : Lexer) :
  identifier s = Ok (t, s') -> moves s s' /\ stamped t s'.
Proof.
  unfold identifier. intros H.
  destruct (while_char py_isalpha (fuel_for s) "" s) as [[a s1]| |] eqn:W;
    cbn [bind] in H; try discriminate.
  injection H as <- <-. split; [|now eexists; eexists].
  eapply while_char_moves; eauto.
Qed.

Lemma single_moves (ty : TokenType) (s : Lexer) (c : ascii) (t : Token)
    (s' : Lexer) :
  current_char s = Some c -> single ty s = Ok (t, s') ->
  moves s s' /\ stamped t s'.
Proof.
  unfold single. intros E H. injection H as <- <-.
  split; [|now eexists; eexists].
  apply moves_on with c; [exact E | constructor].
Qed.

Lemma with_equal_moves (ty ty_eq : TokenType) (s : Lexer) (c : ascii)
    (t : Token) (s' : Lexer) :
  current_char s = Some c -> with_equal ty ty_eq s = Ok (t, s') ->
  moves s s' /\ stamped t s'.
Proof.
  unfold with_equal. intros E H.
  assert (M : moves s (advance s)) by (apply moves_on with c; [exact E | constructor]).
  destruct (current_char (advance s)) as [d|] eqn:E1.
  - destruct (Ascii.eqb d "=").
    + injection H as <- <-. split; [|now eexists; eexists].
      apply moves_trans with (advance s); [exact M|].
      apply moves_on with d; [exact E1 | constructor].
    + injection H as <- <-. split; [exact M | now eexists; eexists].
  - injection H as <- <-. split; [exact M | now eexists; eexists].
Qed.

Lemma classify_moves (c : ascii) (s : Lexer) (t : Token) (s' : Lexer) :
  current_char s = Some c -> classify c s = Ok (t, s') ->
  moves s s' /\ stamped t s'.
Proof.
  intros E. unfold classify, error. intros H.
  repeat match type of H with
  | (if is_char (peek s) ?a then _ else _) = _ =>
      destruct (is_char (peek s) a) eqn:Epeek
  | (if ?b then _ else _) = _ => destruct b
  end;
  eauto using number_moves, identifier_moves, single_moves, with_equal_moves;
  try discriminate.
  injection H as <- <-. split; [|now eexists; eexists].
  apply moves_on with c; [exact E|].
  unfold is_char in Epeek. destruct (peek s) as [p|] eqn:P; [|discriminate].
  apply moves_on with p; [|constructor].
  now rewrite advance_current, <- peek_get.
Qed.

Lemma get_next_token_loop_moves (f : nat) :
  forall (s : Lexer) (t : Token) (s' : Lexer),
    get_next_token_loop f s = Ok (t, s') ->
    moves s s' /\ (t = eof_token \/ stamped t s').
Proof.
  induction f as [|f IH]; intros s t s' H; [discriminate|].
  rewrite get_next_token_loop_S in H.
  destruct (current_char s) as [c|] eqn:E.
  - destruct (py_isspace c).
    + destruct (skip_whitespace s) as [s1| |] eqn:K; cbn [bind] in H;
        try discriminate.
      apply skip_whitespace_moves in K. destruct (IH _ _ _ H) as [M S].
      split; [eapply moves_trans; eauto | exact S].
    + destruct (Ascii.eqb c "{").
      * destruct (skip_comments s) as [s1| |] eqn:K; cbn [bind] in H;
          try discriminate.
        apply skip_comments_moves in K. destruct (IH _ _ _ H) as [M S].
        split; [eapply moves_trans; eauto | exact S].
      * destruct (classify_moves c s t s' E H) as [M S]. auto.
  - injection H as <- <-. split; [constructor | now left].
Qed.

Lemma nth_call_moves (n : nat) :
  forall (s : Lexer) (t : Token) (s' : Lexer),
    nth_call n s = Ok (t, s') ->
    moves s s' /\ (t = eof_token \/ stamped t s').
Proof.
  induction n as [|n IH]; intros s t s' H.
  - now apply get_next_token_loop_moves in H.
  - simpl in H.
    destruct (get_next_token s) as [[t1 s1]| |] eqn:G; cbn [bind] in H;
      try discriminate.
    apply get_next_token_loop_moves in G. destruct G as [M1 _].
    destruct (IH _ _ _ H) as [M2 S].
    split; [eapply moves_trans; eauto | exact S].
Qed.

Lemma nth_call_total (n : nat) :
  forall s : Lexer, consistent s -> nth_call n s <> OutOfFuel.
Proof.
  induction n as [|n IH]; intros s Hc.
  - apply came_back_not_out_of_fuel with s, get_next_token_total, Hc.
  - simpl. assert (T := get_next_token_total s Hc).
    destruct (get_next_token s) as [[t1 s1]| |]; cbn [bind];
      [|discriminate|contradiction].
    apply IH. apply T.
Qed.

Lemma advance_column (s : Lexer) : column s = 1 -> column (advance s) = 1.
Proof.
  intros H. assert (E := advance_counters s).
  destruct (is_newline (current_char (advance s)));
    injection E as _ E; congruence.
Qed.

Lemma moves_column (s s' : Lexer) : moves s s' -> column s = 1 -> column s' = 1.
Proof.
  induction 1 as [s|s c s' _ _ IH]; [trivial|].
  intros H. now apply IH, advance_column.
Qed.

(** ** The exceptions a call can raise *)

Lemma while_char_never_raises (test : ascii -> bool) (f : nat) :
  forall (acc : string) (s : Lexer) (e : exn),
    while_char test f acc s <> Raise e.
Proof.
  induction f as [|f IH]; intros acc s e; [discriminate|].
  rewrite while_char_S.
  destruct (current_char s) as [c|]; [destruct (test c)|];
    auto; discriminate.
Qed.

Lemma number_raises (s : Lexer) (e : exn) :
  number s = Raise e -> e = AttributeError \/ e = ValueError.
Proof.
  unfold number, py_int, py_float. intros H.
  destruct (while_char py_isdigit (fuel_for s) "" s) as [[w s1]|e0|] eqn:W;
    cbn [bind] in H; [|now apply while_char_never_raises in W|discriminate].
  destruct (current_char s1) as [c|]; [destruct (Ascii.eqb c dot)|].
  - destruct (peek s1) as [p|]; [destruct (py_isdigit p)|].
    + cbv zeta in H.
      destruct (while_char py_isdigit (fuel_for (advance s1)) "" (advance s1))
        as [[fr s3]|e3|] eqn:W3; cbn [bind] in H;
        [|now apply while_char_never_raises in W3|discriminate].
      destruct (float_accepts w fr); cbn [bind] in H;
        [discriminate | injection H as <-; auto].
    + destruct (int_accepts w); cbn [bind] in H;
        [discriminate | injection H as <-; auto].
    + injection H as <-; auto.
  - destruct (int_accepts w); cbn [bind] in H;
      [discriminate | injection H as <-; auto].
  - destruct (int_accepts w); cbn [bind] in H;
      [discriminate | injection H as <-; auto].
Qed.

Lemma identifier_never_raises (s : Lexer) (e : exn) : identifier s <> Raise e.
Proof.
  unfold identifier. intros H.
  destruct (while_char py_isalpha (fuel_for s) "" s) as [[a s1]|e0|] eqn:W;
    cbn [bind] in H; try discriminate.
  now apply while_char_never_raises in W.
Qed.

Lemma moves_scan_error (s s1 : Lexer) (e : exn) :
  moves s s1 -> scan_error s1 e -> scan_error s e.
Proof.
  intros M [H|[H|(s2 & M2 & H & C)]]; [now left | now right; left|].
  right; right. exists s2. split; [eapply moves_trans; eauto | auto].
Qed.

Lemma classify_raises (c : ascii) (s : Lexer) (e : exn) :
  current_char s = Some c ->
  py_isspace c = false -> Ascii.eqb c "{" = false ->
  classify c s = Raise e -> scan_error s e.
Proof.
  intros E Hsp Hbr. unfold classify. intros H.
  destruct (py_isdigit c) eqn:T1.
  { apply number_raises in H. destruct H; [now left | now right; left]. }
  destruct (isalpha c) eqn:T2.
  { now apply identifier_never_raises in H. }
  unfold single, with_equal in H.
  repeat match type of H with
  | (if ?b then _ else _) = _ => destruct b eqn:?; try discriminate H
  | match ?x with _ => _ end = _ => destruct x eqn:?; try discriminate H
  end.
  unfold error in H. injection H as <-.
  right; right. exists s. split; [constructor|]. split; [reflexivity|].
  right. exists c. split; [exact E|].
  unfold recognised. rewrite Hsp, Hbr, T1, T2. simpl.
  repeat match goal with
  | E : Ascii.eqb c _ = false |- _ => rewrite E; clear E
  end.
  reflexivity.
Qed.

Lemma skip_whitespace_never_raises (s : Lexer) (e : exn) :
  skip_whitespace s <> Raise e.
Proof.
  unfold skip_whitespace. intros H.
  destruct (while_char py_isspace (fuel_for s) "" s) as [[a s1]|e0|] eqn:W;
    cbn [bind] in H; try discriminate.
  now apply while_char_never_raises in W.
Qed.

Lemma skip_comments_raises (s : Lexer) (e : exn) :
  skip_comments s = Raise e -> scan_error s e.
Proof.
  unfold skip_comments. intros H.
  destruct (while_char not_rbrace (fuel_for s) "" s) as [[a s1]|e0|] eqn:W;
    cbn [bind] in H; [|now apply while_char_never_raises in W|discriminate].
  apply while_char_moves in W.
  destruct (current_char s1) as [c|] eqn:E; [discriminate|].
  unfold error in H. injection H as <-.
  right; right. exists s1. split; [exact W|]. split; [reflexivity | now left].
Qed.

Lemma get_next_token_loop_raises (f : nat) :
  forall (s : Lexer) (e : exn),
    get_next_token_loop f s = Raise e -> scan_error s e.
Proof.
  induction f as [|f IH]; intros s e H; [discriminate|].
  rewrite get_next_token_loop_S in H.
  destruct (current_char s) as [c|] eqn:E; [|discriminate].
  destruct (py_isspace c) eqn:Hsp.
  - destruct (skip_whitespace s) as [s1|e1|] eqn:K; cbn [bind] in H;
      [|now apply skip_whitespace_never_raises in K|discriminate].
    apply skip_whitespace_moves in K.
    eapply moves_scan_error; eauto.
  - destruct (Ascii.eqb c "{") eqn:Hbr.
    + destruct (skip_comments s) as [s1|e1|] eqn:K; cbn [bind] in H;
        [| |discriminate].
      * apply skip_comments_moves in K. eapply moves_scan_error; eauto.
      * injection H as <-. now apply skip_comments_raises.
    + eapply classify_raises; eauto.
Qed.

Lemma nth_call_raises (n : nat) :
  forall (s : Lexer) (e : exn), nth_call n s = Raise e -> scan_error s e.
Proof.
  induction n as [|n IH]; intros s e H.
  - now apply get_next_token_loop_raises in H.
  - simpl in H.
    destruct (get_next_token s) as [[t1 s1]|e1|] eqn:G; cbn [bind] in H;
      [| |discriminate].
    + apply get_next_token_loop_moves in G. destruct G as [M _].
      eapply moves_scan_error; eauto.
    + injection H as <-. now apply get_next_token_loop_raises in G.
Qed.

(** ** Invariants of a scan *)

(** X1.  However many tokens have been asked for, a call of
    [get_next_token] on a scanner made from [txt] returns or raises (it never
    loops), and the state it returns still reads [txt], caches the character
    under the cursor, and has its cursor at most at the length of the
    text. *)
Theorem scan_keeps_cursor (txt : string) (n : nat) :
  cursor_kept txt (scan n txt).
Proof.
  unfold scan. destruct (Lexer_init txt) as [s| |] eqn:Hi.
  - destruct (Lexer_init_consistent txt s Hi) as (Hc & Ht & Hp).
    cbn [bind].
    destruct (nth_call n s) as [[t s']| |] eqn:C; cbn [cursor_kept].
    + destruct (nth_call_moves n s t s' C) as [M _].
      assert (T := moves_text _ _ M).
      assert (K := moves_consistent _ _ M Hc).
      assert (B := moves_bound _ _ M Hc ltac:(lia)).
      unfold consistent in K. rewrite T, Ht in *. auto.
    + exact I.
    + now apply nth_call_total in C.
  - exact I.
  - unfold Lexer_init in Hi. destruct (String.get 0 txt); discriminate.
Qed.

(** X2.  The column never leaves 1: every state a scan returns has column
    1, and every token is the [EOF] token (line 0, column 0) or carries the
    line counter of the state behind it and column 1. *)
Theorem column_is_always_one (txt : string) (n : nat) (t : Token)
    (s' : Lexer) :
  scan n txt = Ok (t, s') ->
  column s' = 1
  /\ (t = eof_token \/ (line t = lineno s' /\ col t = 1)).
Proof.
  unfold scan. intros H.
  destruct (Lexer_init txt) as [s| |] eqn:Hi; cbn [bind] in H; try discriminate.
  assert (Hcol : column s = 1).
  { unfold Lexer_init in Hi. destruct (String.get 0 txt); [|discriminate].
    now injection Hi as <-. }
  destruct (nth_call_moves n s t s' H) as [M S].
  assert (C := moves_column _ _ M Hcol).
  split; [exact C|].
  destruct S as [->|(ty & v & ->)]; [now left | right].
  simpl. auto.
Qed.

Lemma column_is_always_one_witness :
  let s' := {| text := String "a" (String newline "b"); pos := 1;
               current_char := Some newline; lineno := 2; column := 1 |} in
  let t := {| type := IDENT; value := VStr "a"; line := 2; col := 1 |} in
  scan 0 (String "a" (String newline "b")) = Ok (t, s')
  /\ column s' = 1
  /\ (t = eof_token \/ (line t = lineno s' /\ col t = 1)).
Proof.
  intros s' t.
  assert (H : scan 0 (String "a" (String newline "b")) = Ok (t, s'))
    by reflexivity.
  split; [exact H|].
  exact (column_is_always_one _ 0 t s' H).
Defined.

(** X3.  A scan raises nothing but: [IndexError], from the constructor on
    the empty text; [AttributeError] or [ValueError], from [number]; and the
    [Exception] of [Lexer.error], whose message names [None] or a character
    no branch accepts, a line, and column 1.  It never raises
    [LexerError]. *)
Theorem scan_raises_only (txt : string) (n : nat) (e : exn) :
  scan n txt = Raise e ->
  (e = IndexError /\ txt = "")
  \/ e = AttributeError
  \/ e = ValueError
  \/ exists (c : option ascii) (l : nat),
       e = PyException (error_message c l 1)
       /\ match c with
          | None => True
          | Some a => recognised a = false
          end.
Proof.
  unfold scan. intros H.
  destruct (Lexer_init txt) as [s|e0|] eqn:Hi; cbn [bind] in H.
  - assert (Hcol : column s = 1).
    { unfold Lexer_init in Hi. destruct (String.get 0 txt); [|discriminate].
      now injection Hi as <-. }
    destruct (nth_call_raises n s e H) as [->|[->|(s1 & M & -> & C)]]; auto.
    right; right; right.
    exists (current_char s1), (lineno s1).
    rewrite (moves_column _ _ M Hcol). split; [reflexivity|].
    destruct C as [->|(c & -> & R)]; auto.
  - injection H as <-. left. unfold Lexer_init in Hi.
    destruct txt; simpl in Hi; [now injection Hi as <- | discriminate].
  - discriminate.
Qed.

Lemma scan_raises_only_witness :
  scan 1 "a = b" = Raise (PyException (error_message (Some "="%char) 1 1))
  /\ ((PyException (error_message (Some "="%char) 1 1) = IndexError
       /\ "a = b" = "")
      \/ PyException (error_message (Some "="%char) 1 1) = AttributeError
      \/ PyException (error_message (Some "="%char) 1 1) = ValueError
      \/ exists (c : option ascii) (l : nat),
           PyException (error_message (Some "="%char) 1 1)
           = PyException (error_message c l 1)
           /\ match c with
              | None => True
              | Some a => recognised a = false
              end).
Proof.
  assert (H : scan 1 "a = b"
              = Raise (PyException (error_message (Some "="%char) 1 1)))
    by reflexivity.
  split; [exact H|].
  exact (scan_raises_only "a = b" 1 _ H).
Defined.

(** ** Lookahead, blank text, operators *)

Lemma peek_is_next_current_aux (s : Lexer) :
  peek s = current_char (advance s).
Proof. now rewrite peek_get, advance_current. Qed.

(** X4.  [peek] returns the character one place behind the cursor, [None]
    when there is none; it is the character that [advance] makes current. *)
Theorem peek_is_next_current (s : Lexer) :
  peek s = String.get (S (pos s)) (text s)
  /\ peek s = current_char (advance s).
Proof. now rewrite peek_get, advance_current. Qed.

(** X5.  When nothing but whitespace and closed comments is left behind the
    cursor, [get_next_token] returns the [EOF] token and leaves the cursor
    at the end of the text. *)
Theorem blank_rest_gives_eof (s : Lexer) (done pre : string) :
  consistent s ->
  text s = done ++ pre ->
  pos s = String.length done ->
  skippable pre ->
  let s' := advance_n (String.length pre) s in
  get_next_token s = Ok (eof_token, s')
  /\ pos s' = String.length (text s)
  /\ current_char s' = None.
Proof.
  intros Hc Ht Hp Hpre s'.
  assert (Ht' : text s = done ++ pre ++ "") by now rewrite app_empty_r.
  assert (Hpos : pos s' = String.length (text s)).
  { unfold s'. rewrite advance_n_pos, Hp, Ht, length_app. reflexivity. }
  assert (Hcur : current_char s' = None).
  { unfold s'. rewrite advance_n_current by exact Hc.
    apply get_none. rewrite Hp, Ht, length_app. lia. }
  rewrite (skip_prefix pre Hpre done "" s Hc Ht' Hp). fold s'.
  rewrite (get_next_token_at_end s' Hcur). auto.
Qed.

Lemma blank_rest_gives_eof_witness :
  let s := {| text := String newline " {x} "; pos := 0;
              current_char := Some newline; lineno := 1; column := 1 |} in
  let s' := {| text := String newline " {x} "; pos := 6;
               current_char := None; lineno := 1; column := 1 |} in
  get_next_token s = Ok (eof_token, s')
  /\ pos s' = String.length (text s)
  /\ current_char s' = None.
Proof.
  apply (blank_rest_gives_eof
           {| text := String newline " {x} "; pos := 0;
              current_char := Some newline; lineno := 1; column := 1 |}
           "" (String newline " {x} ")).
  - reflexivity.
  - reflexivity.
  - reflexivity.
  - apply skip_space; [reflexivity|].
    apply skip_space; [reflexivity|].
    apply (skip_comment "x" " "); [reflexivity|].
    apply skip_space; [reflexivity|]. apply skip_nil.
Defined.

(** X6.  On each of the nine punctuation characters [get_next_token]
    consumes exactly that character and returns the token of its kind, with
    the kind itself as value. *)
Theorem punctuation_consumes_one (s : Lexer) (c : ascii) (ty : TokenType) :
  In (c, ty) punctuation ->
  current_char s = Some c ->
  get_next_token s
  = Ok ({| type := ty; value := VType ty; line := lineno (advance s);
           col := column (advance s) |}, advance s).
Proof.
  intros Hin E.
  rewrite get_next_token_unfold, get_next_token_loop_S, E.
  unfold punctuation in Hin. simpl in Hin.
  repeat (destruct Hin as [Hin|Hin];
          [injection Hin as <- <-; reflexivity|]).
  contradiction.
Qed.

Lemma punctuation_consumes_one_witness :
  let s := {| text := ";x"; pos := 0; current_char := Some ";"%char;
              lineno := 1; column := 1 |} in
  get_next_token s
  = Ok ({| type := SEMI; value := VType SEMI; line := 1; col := 1 |},
        {| text := ";x"; pos := 1; current_char := Some "x"%char;
           lineno := 1; column := 1 |}).
Proof.
  apply (punctuation_consumes_one
           {| text := ";x"; pos := 0; current_char := Some ";"%char;
              lineno := 1; column := 1 |} ";"%char SEMI).
  - simpl. do 6 right. left. reflexivity.
  - reflexivity.
Defined.

Lemma is_char_peek (s : Lexer) (a : ascii) :
  is_char (peek s) a = true <-> peek s = Some a.
Proof.
  unfold is_char. destruct (peek s) as [p|]; [|split; discriminate].
  destruct (Ascii.eqb_spec p a) as [->|N]; split; auto; try discriminate.
  intros H. injection H as ->. contradiction.
Qed.

(** X7.  On [:], [<], [>] and [!] the scanner looks one character ahead: if
    an [=] follows, it consumes both characters and returns the compound
    kind; otherwise it consumes one character and returns the plain kind. *)
Theorem compound_looks_ahead (s : Lexer) (c : ascii) (ty ty_eq : TokenType) :
  In (c, ty, ty_eq) compound ->
  current_char s = Some c ->
  (peek s = Some "="%char ->
   let s' := advance (advance s) in
   get_next_token s
   = Ok ({| type := ty_eq; value := VType ty_eq; line := lineno s';
            col := column s' |}, s'))
  /\ (peek s <> Some "="%char ->
      let s' := advance s in
      get_next_token s
      = Ok ({| type := ty; value := VType ty; line := lineno s';
               col := column s' |}, s')).
Proof.
  intros Hin E.
  rewrite get_next_token_unfold, get_next_token_loop_S, E.
  assert (Hyes : peek s = Some "="%char ->
                 is_char (peek s) "=" = true
                 /\ current_char (advance s) = Some "="%char).
  { intros P. split; [now apply is_char_peek|].
    now rewrite <- peek_is_next_current_aux. }
  unfold compound in Hin. simpl in Hin.
  split.
  - intros P. destruct (Hyes P) as [P1 P2].
    repeat (destruct Hin as [Hin|Hin];
            [injection Hin as <- <- <-; cbv beta iota;
             change (py_isspace _) with false;
             unfold classify, with_equal; simpl; rewrite ?P1, ?P2;
             reflexivity|]).
    contradiction.
  - intros P.
    assert (P1 : is_char (peek s) "=" = false).
    { destruct (is_char (peek s) "=") eqn:X; [|reflexivity].
      apply is_char_peek in X. contradiction. }
    assert (P2 : is_char (current_char (advance s)) "=" = false).
    { now rewrite <- peek_is_next_current_aux. }
    unfold is_char in P2.
    repeat (destruct Hin as [Hin|Hin];
            [injection Hin as <- <- <-; cbv beta iota;
             unfold classify, with_equal; simpl; rewrite ?P1;
             destruct (current_char (advance s)) as [d|];
             rewrite ?P2; reflexivity|]).
    contradiction.
Qed.

Lemma compound_looks_ahead_witness :
  let s := {| text := "<=<"; pos := 0; current_char := Some "<"%char;
              lineno := 1; column := 1 |} in
  let s1 := {| text := "<=<"; pos := 2; current_char := Some "<"%char;
               lineno := 1; column := 1 |} in
  let s2 := {| text := "<=<"; pos := 3; current_char := None;
               lineno := 1; column := 1 |} in
  get_next_token s
  = Ok ({| type := LESS_EQUAL; value := VType LESS_EQUAL; line := 1;
           col := 1 |}, s1)
  /\ get_next_token s1
     = Ok ({| type := LESS; value := VType LESS; line := 1; col := 1 |}, s2).
Proof.
  intros s s1 s2.
  assert (Hin : In ("<"%char, LESS, LESS_EQUAL) compound).
  { simpl. right. left. reflexivity. }
  split.
  - apply (proj1 (compound_looks_ahead s "<"%char LESS LESS_EQUAL Hin
                    eq_refl)).
    reflexivity.
  - apply (proj2 (compound_looks_ahead s1 "<"%char LESS LESS_EQUAL Hin
                    eq_refl)).
    discriminate.
Defined.

(** ** Numbers *)

Lemma get_app_skip (a b : string) (n : nat) :
  String.get (String.length a + n) (a ++ b) = String.get n b.
Proof. rewrite Nat.add_comm. symmetry. apply append_correct2. Qed.

Lemma string_forallb_impl (p q : ascii -> bool) (w : string) :
  (forall c, p c = true -> q c = true) ->
  string_forallb p w = true -> string_forallb q w = true.
Proof.
  intros Hpq. induction w as [|c w IH]; simpl; [trivial|].
  intros H. apply andb_true_iff in H as [H1 H2].
  now rewrite (Hpq c H1), IH.
Qed.

Lemma decimal_is_digit (c : ascii) : py_isdecimal c = true -> py_isdigit c = true.
Proof. unfold py_isdigit. now intros ->. Qed.

(** A digit reaches the number branch of the dispatcher. *)
Lemma digit_dispatch (c : ascii) :
  py_isdigit c = true ->
  py_isspace c = false /\ Ascii.eqb c "{" = false.
Proof. all_chars c; vm_compute; intros H; try discriminate H; auto. Qed.

(** The first loop of [number] over a run [w] of digits. *)
Lemma number_digits (s : Lexer) (done w rest : string) :
  consistent s ->
  text s = done ++ w ++ rest ->
  pos s = String.length done ->
  string_forallb py_isdigit w = true ->
  stops_at py_isdigit rest ->
  let s1 := advance_n (String.length w) s in
  while_char py_isdigit (fuel_for s) "" s = Ok (w, s1)
  /\ current_char s1 = String.get 0 rest
  /\ peek s1 = String.get 1 rest.
Proof.
  intros Hc Ht Hp Hw Hstop s1.
  split; [|split].
  - rewrite (while_char_run py_isdigit w done rest "" s (fuel_for s)); auto.
    unfold fuel_for. rewrite Ht, !length_app. lia.
  - unfold s1. rewrite advance_n_current by exact Hc.
    rewrite Ht, Hp.
    replace (String.length done + String.length w)
      with (String.length (done ++ w) + 0) by (rewrite length_app; lia).
    rewrite <- app_assoc. apply get_app_skip.
  - unfold s1. rewrite peek_get, advance_n_pos, advance_n_text.
    rewrite Ht, Hp.
    replace (S (String.length done + String.length w))
      with (String.length (done ++ w) + 1) by (rewrite length_app; lia).
    rewrite <- app_assoc. apply get_app_skip.
Qed.

(** A call that starts on a digit is a call of [number]. *)
Lemma digit_starts_number (s : Lexer) (c : ascii) :
  current_char s = Some c -> py_isdigit c = true ->
  get_next_token s = number s.
Proof.
  intros E D. destruct (digit_dispatch c D) as [H1 H2].
  rewrite get_next_token_unfold, get_next_token_loop_S, E, H1, H2.
  unfold classify. now rewrite D.
Qed.

Lemma ends_integer_stops (rest : string) :
  ends_integer rest = true -> stops_at py_isdigit rest.
Proof.
  destruct rest as [|c r]; simpl; [trivial|].
  intros H. apply andb_true_iff in H as [H _].
  now apply negb_true_iff in H.
Qed.

(** [number] on a run of digits that stands as an integer: the outcome is
    that of [int] on the run. *)
Lemma number_integer (s : Lexer) (done w rest : string) :
  consistent s ->
  text s = done ++ w ++ rest ->
  pos s = String.length done ->
  string_forallb py_isdigit w = true ->
  ends_integer rest = true ->
  let s1 := advance_n (String.length w) s in
  number s
  = (n <- py_int w ;; Ok (new_token INTEGER_CONST (VInt n) s1, s1)).
Proof.
  intros Hc Ht Hp Hw Hend s1.
  destruct (number_digits s done w rest Hc Ht Hp Hw (ends_integer_stops _ Hend))
    as (W & C & P).
  fold s1 in W, C, P.
  unfold number. rewrite W. cbn [bind]. rewrite C, P.
  destruct rest as [|c r]; [reflexivity|].
  simpl in Hend. apply andb_true_iff in Hend as [_ Hend].
  cbn [String.get].
  destruct (Ascii.eqb c dot); [|reflexivity].
  simpl in Hend. destruct r as [|d r]; [discriminate|].
  cbn [String.get]. apply negb_true_iff in Hend. now rewrite Hend.
Qed.

Lemma first_char (w : string) :
  w <> "" -> exists c w', w = String c w'.
Proof. destruct w as [|c w']; [congruence | eauto]. Qed.

(** X8.  A run of digits that is followed by the end of the text, by a
    character that is neither a digit nor a dot, or by a dot that a
    character other than a digit follows, is read as one [INTEGER_CONST]
    token with the run's decimal value, provided the run holds decimal
    digits only and no more of them than [int] converts (4300); the cursor
    stops right behind the run.  If the run holds a digit that is not a
    decimal digit (a superscript) or is longer than that, the call raises
    [ValueError] instead. *)
Theorem integer_literal_is_read (s : Lexer) (done w rest : string) :
  consistent s ->
  text s = done ++ w ++ rest ->
  pos s = String.length done ->
  w <> "" ->
  string_forallb py_isdigit w = true ->
  ends_integer rest = true ->
  let s1 := advance_n (String.length w) s in
  (is_decimal_string w = true ->
   String.length w <= int_max_str_digits ->
   get_next_token s
   = Ok ({| type := INTEGER_CONST; value := VInt (digits_value 0 w);
            line := lineno s1; col := column s1 |}, s1))
  /\ (is_decimal_string w = false \/ int_max_str_digits < String.length w ->
      get_next_token s = Raise ValueError).
Proof.
  intros Hc Ht Hp Hne Hw Hend s1.
  destruct (first_char w Hne) as (c & w' & Ew).
  assert (E : current_char s = Some c).
  { rewrite Hc, Ht, Hp, Ew. apply get_app_here. }
  assert (D : py_isdigit c = true).
  { rewrite Ew in Hw. simpl in Hw. now apply andb_true_iff in Hw as [D _]. }
  rewrite (digit_starts_number s c E D).
  rewrite (number_integer s done w rest Hc Ht Hp Hw Hend). fold s1.
  unfold py_int, int_accepts. split.
  - intros H1 H2. apply Nat.leb_le in H2. rewrite H1, H2. reflexivity.
  - intros [H|H].
    + rewrite H. reflexivity.
    + apply Nat.leb_gt in H. rewrite H, andb_false_r. reflexivity.
Qed.

Lemma integer_literal_is_read_witness :
  let s := {| text := "x 42.y"; pos := 2; current_char := Some "4"%char;
              lineno := 1; column := 1 |} in
  get_next_token s
  = Ok ({| type := INTEGER_CONST; value := VInt 42; line := 1; col := 1 |},
        {| text := "x 42.y"; pos := 4; current_char := Some "."%char;
           lineno := 1; column := 1 |}).
Proof.
  intros s.
  refine (proj1 (integer_literal_is_read s "x " "42" ".y" _ _ _ _ _ _) _ _);
    first [reflexivity | discriminate | apply Nat.leb_le; reflexivity].
Defined.

(** X9.  A run of digits, a dot and a second run of digits, all of them
    decimal digits, are read as one [REAL_CONST] token whose value is what
    [float] makes of them: the binary64 number nearest to the decimal they
    spell (ties to even, infinity on overflow); the cursor stops right
    behind the second run.  With a digit that is not a decimal digit in
    either run the call raises [ValueError]. *)
Theorem real_literal_is_read (s : Lexer) (done w fr rest : string) :
  consistent s ->
  text s = done ++ w ++ String dot (fr ++ rest) ->
  pos s = String.length done ->
  w <> "" -> fr <> "" ->
  string_forallb py_isdigit w = true ->
  string_forallb py_isdigit fr = true ->
  stops_at py_isdigit rest ->
  let s3 := advance_n (String.length w + S (String.length fr)) s in
  (string_forallb py_isdecimal w = true ->
   string_forallb py_isdecimal fr = true ->
   get_next_token s
   = Ok ({| type := REAL_CONST;
            value := VFloat (float_of_decimal (digits_value 0 (w ++ fr))
                               (String.length fr));
            line := lineno s3; col := column s3 |}, s3))
  /\ (string_forallb py_isdecimal w && string_forallb py_isdecimal fr = false ->
      get_next_token s = Raise ValueError).
Proof.
  intros Hc Ht Hp Hne Hne' Hw Hfr Hstop s3.
  destruct (first_char w Hne) as (c & w' & Ew).
  destruct (first_char fr Hne') as (d & fr' & Efr).
  assert (E : current_char s = Some c).
  { rewrite Hc, Ht, Hp, Ew. apply get_app_here. }
  assert (D : py_isdigit c = true).
  { rewrite Ew in Hw. simpl in Hw. now apply andb_true_iff in Hw as [D _]. }
  assert (D' : py_isdigit d = true).
  { rewrite Efr in Hfr. simpl in Hfr. now apply andb_true_iff in Hfr as [D' _]. }
  assert (Hw0 : String.eqb w "" = false).
  { now destruct (String.eqb_spec w ""). }
  rewrite (digit_starts_number s c E D).
  destruct (number_digits s done w (String dot (fr ++ rest)) Hc Ht Hp Hw
              eq_refl) as (W & C & P).
  set (s1 := advance_n (String.length w) s) in *.
  unfold number. rewrite W. cbn [bind]. rewrite C, P.
  cbn [String.get]. change (Ascii.eqb dot dot) with true. cbv iota.
  replace (String.get 0 (fr ++ rest)) with (Some d)
    by (rewrite Efr; reflexivity).
  rewrite D'. cbv zeta.
  assert (W3 : while_char py_isdigit (fuel_for (advance s1)) "" (advance s1)
               = Ok (fr, s3)).
  { rewrite (while_char_run py_isdigit fr (done ++ w ++ String dot "") rest
               "" (advance s1) (fuel_for (advance s1))).
    - unfold s3, s1. rewrite advance_n_add, <- advance_n_succ.
      reflexivity.
    - apply advance_consistent.
    - unfold s1. rewrite advance_text, advance_n_text, Ht.
      rewrite !app_assoc. reflexivity.
    - unfold s1. rewrite advance_pos, advance_n_pos, Hp, !length_app.
      simpl. lia.
    - exact Hfr.
    - exact Hstop.
    - unfold fuel_for, s1. rewrite advance_text, advance_n_text, Ht.
      rewrite !length_app. simpl. rewrite length_app. lia. }
  rewrite W3. cbn [bind]. unfold py_float, float_accepts.
  rewrite Hw0. cbn [andb negb]. rewrite andb_true_r.
  split.
  - intros H1 H2. rewrite H1, H2. reflexivity.
  - intros ->. reflexivity.
Qed.

Lemma real_literal_is_read_witness :
  let s := {| text := "3.14+"; pos := 0; current_char := Some "3"%char;
              lineno := 1; column := 1 |} in
  get_next_token s
  = Ok ({| type := REAL_CONST;
           value := VFloat (S754_finite false 7070651414971679 (-51));
           line := 1; col := 1 |},
        {| text := "3.14+"; pos := 4; current_char := Some "+"%char;
           lineno := 1; column := 1 |}).
Proof.
  intros s.
  refine (proj1 (real_literal_is_read s "" "3" "14" "+" _ _ _ _ _ _ _ _) _ _);
    first [reflexivity | discriminate].
Defined.

(** X10.  A run of digits followed by a dot that ends the text makes
    [get_next_token] raise [AttributeError]: [peek] returns [None] there and
    [number] calls [isdigit] on it. *)
Theorem digits_dot_at_end_raise (s : Lexer) (done w : string) :
  consistent s ->
  text s = done ++ w ++ String dot "" ->
  pos s = String.length done ->
  w <> "" ->
  string_forallb py_isdigit w = true ->
  get_next_token s = Raise AttributeError.
Proof.
  intros Hc Ht Hp Hne Hw.
  destruct (first_char w Hne) as (c & w' & Ew).
  assert (E : current_char s = Some c).
  { rewrite Hc, Ht, Hp, Ew. apply get_app_here. }
  assert (D : py_isdigit c = true).
  { rewrite Ew in Hw. simpl in Hw. now apply andb_true_iff in Hw as [D _]. }
  rewrite (digit_starts_number s c E D).
  destruct (number_digits s done w (String dot "") Hc Ht Hp Hw eq_refl)
    as (W & C & P).
  unfold number. rewrite W. cbn [bind]. rewrite C, P. reflexivity.
Qed.

Lemma digits_dot_at_end_raise_witness :
  get_next_token {| text := "a:=10."; pos := 3; current_char := Some "1"%char;
                    lineno := 1; column := 1 |}
  = Raise AttributeError.
Proof.
  apply (digits_dot_at_end_raise _ "a:=" "10");
    first [reflexivity | discriminate].
Defined.

(** ** Decimal numerals *)

Lemma digits_value_of_uint (d : Decimal.uint) :
  forall a : nat,
    digits_value (Z.of_nat a) (NilEmpty.string_of_uint d)
    = Z.of_nat (Nat.of_uint_acc d a).
Proof.
  induction d as [|d IH|d IH|d IH|d IH|d IH|d IH|d IH|d IH|d IH|d IH];
    intros a; [reflexivity|..];
    cbn [NilEmpty.string_of_uint digits_value Nat.of_uint_acc];
    rewrite <- IH; f_equal; rewrite Nat.tail_mul_spec;
    match goal with
    | |- context [code ?c] =>
        let v := eval vm_compute in (code c) in change (code c) with v
    end;
    lia.
Qed.

Lemma string_of_uint_decimal (d : Decimal.uint) :
  string_forallb py_isdecimal (NilEmpty.string_of_uint d) = true.
Proof.
  induction d; simpl; try reflexivity; exact IHd.
Qed.

Lemma format_int_nonempty (n : nat) : format_int n <> "".
Proof.
  unfold format_int. intros H.
  assert (E : Nat.to_uint n = Decimal.Nil).
  { destruct (Nat.to_uint n); simpl in H; try discriminate. reflexivity. }
  assert (U := DecimalNat.Unsigned.to_of (Nat.to_uint n)).
  rewrite DecimalNat.Unsigned.of_to, E in U.
  discriminate U.
Qed.

Lemma format_int_value (n : nat) :
  is_decimal_string (format_int n) = true
  /\ digits_value 0 (format_int n) = Z.of_nat n.
Proof.
  split.
  - unfold is_decimal_string.
    destruct (String.eqb_spec (format_int n) "") as [E|_];
      [now apply format_int_nonempty in E|].
    apply string_of_uint_decimal.
  - unfold format_int.
    change 0%Z with (Z.of_nat 0). rewrite digits_value_of_uint.
    f_equal. apply DecimalNat.Unsigned.of_to.
Qed.

(** X11.  Reading back a printed number: for every natural number [n] whose
    decimal numeral has no more digits than [int] converts (4300), the
    scanner made from that numeral returns, at its first call, an
    [INTEGER_CONST] token with value [n] and stops at the end of the
    text. *)
Theorem numeral_round_trip (n : nat) :
  String.length (format_int n) <= int_max_str_digits ->
  exists t s',
    scan 0 (format_int n) = Ok (t, s')
    /\ type t = INTEGER_CONST
    /\ value t = VInt (Z.of_nat n)
    /\ pos s' = String.length (format_int n)
    /\ current_char s' = None.
Proof.
  intros Hcap.
  destruct (format_int_value n) as [Hdec Hval].
  destruct (first_char _ (format_int_nonempty n)) as (c & w' & Ew).
  pose (s := {| text := format_int n; pos := 0; current_char := Some c;
                lineno := 1; column := 1 |}).
  assert (Hi : Lexer_init (format_int n) = Ok s).
  { unfold Lexer_init, s. now rewrite Ew. }
  assert (Hc : consistent s).
  { unfold consistent, s. simpl. now rewrite Ew. }
  assert (Hw : string_forallb py_isdigit (format_int n) = true).
  { apply string_forallb_impl with py_isdecimal; [exact decimal_is_digit|].
    unfold is_decimal_string in Hdec.
    now apply andb_true_iff in Hdec as [_ H]. }
  assert (D : py_isdigit c = true).
  { rewrite Ew in Hw. simpl in Hw. now apply andb_true_iff in Hw as [D _]. }
  assert (Ht : text s = "" ++ format_int n ++ "").
  { simpl. now rewrite app_empty_r. }
  assert (N := number_integer s "" (format_int n) "" Hc Ht eq_refl Hw eq_refl).
  cbv zeta in N. unfold py_int, int_accepts in N.
  apply Nat.leb_le in Hcap. rewrite Hdec, Hcap in N. cbn [bind andb] in N.
  eexists; eexists. unfold scan. rewrite Hi. cbn [bind nth_call].
  rewrite (digit_starts_number s c eq_refl D), N, Hval.
  split; [reflexivity|]. split; [reflexivity|]. split; [reflexivity|].
  split.
  - now rewrite advance_n_pos.
  - rewrite advance_n_current by exact Hc. apply get_none.
    change (text s) with (format_int n). change (pos s) with 0. lia.
Qed.

Lemma numeral_round_trip_witness :
  String.length (format_int 2024) <= int_max_str_digits
  /\ exists t s',
       scan 0 (format_int 2024) = Ok (t, s')
       /\ type t = INTEGER_CONST
       /\ value t = VInt (Z.of_nat 2024)
       /\ pos s' = String.length (format_int 2024)
       /\ current_char s' = None.
Proof.
  assert (H : String.length (format_int 2024) <= int_max_str_digits)
    by (apply Nat.leb_le; reflexivity).
  split; [exact H|].
  exact (numeral_round_trip 2024 H).
Defined.

(** ** The tokens a call returns *)

Ltac kind_of H :=
  first [ discriminate H
        | injection H as <- <-; cbn [type value new_token] ].

Lemma dict_get_reserved_used (name : string) :
  unused_kind (dict_get reserved_keywords name IDENT) = false.
Proof.
  unfold reserved_keywords. cbn [dict_get].
  repeat match goal with
  | |- unused_kind (if ?b then _ else _) = _ => destruct b; [reflexivity|]
  end.
  reflexivity.
Qed.

Lemma digits_value_nonneg (w : string) :
  forall a : Z, (0 <= a)%Z -> (0 <= digits_value a w)%Z.
Proof.
  induction w as [|c w IH]; intros a Ha; cbn [digits_value]; [exact Ha|].
  apply IH. lia.
Qed.

(** The name [identifier] looks up is the value of its token, and a keyword
    kind comes with its own spelling. *)
Lemma keyword_value_fits (name : string) (s : Lexer) :
  value_fits (new_token (dict_get reserved_keywords name IDENT) (VStr name) s).
Proof.
  unfold value_fits, reserved_keywords. cbn [dict_get new_token type value].
  repeat match goal with
  | |- context [String.eqb ?k name] =>
      destruct (String.eqb_spec k name) as [<-|_]; [reflexivity|]
  end.
  now exists name.
Qed.

Lemma iter_pos_invariant {A : Type} (f : A -> A) (P : A -> Prop) :
  (forall x, P x -> P (f x)) ->
  forall (p : positive) (x : A), P x -> P (iter_pos f p x).
Proof.
  intros Hf. induction p as [p IH|p IH|]; intros x Hx; simpl; auto.
Qed.

Lemma shr_1_nonneg (mrs : shr_record) :
  (0 <= shr_m mrs)%Z -> (0 <= shr_m (shr_1 mrs))%Z.
Proof.
  destruct mrs as [m r b]. destruct m as [|[q|q|]|[q|q|]]; simpl; lia.
Qed.

Lemma shr_fexp_nonneg (prec emax m e : Z) (l : location) :
  (0 <= m)%Z -> (0 <= shr_m (fst (shr_fexp prec emax m e l)))%Z.
Proof.
  intros Hm. unfold shr_fexp, shr.
  assert (H0 : (0 <= shr_m (shr_record_of_loc m l))%Z).
  { destruct l as [|[ | | ]]; exact Hm. }
  destruct (fexp prec emax (Zdigits2 m + e) - e)%Z as [|q|q]; simpl; auto.
  apply (iter_pos_invariant shr_1 (fun x => (0 <= shr_m x)%Z));
    [exact shr_1_nonneg | exact H0].
Qed.

Lemma round_nearest_even_nonneg (m : Z) (l : location) :
  (0 <= m)%Z -> (0 <= round_nearest_even m l)%Z.
Proof.
  intros Hm. destruct l as [|[ | | ]]; simpl; try destruct (Z.even m); lia.
Qed.

Lemma binary_round_aux_nonneg (prec emax m e : Z) (l : location) :
  (0 <= m)%Z ->
  float_nonneg (binary_round_aux prec emax false m e l) = true.
Proof.
  intros Hm. unfold binary_round_aux.
  assert (H1 := shr_fexp_nonneg prec emax m e l Hm).
  destruct (shr_fexp prec emax m e l) as [mrs1 e1]. simpl in H1.
  assert (H2 := shr_fexp_nonneg prec emax _ e1 loc_Exact
                  (round_nearest_even_nonneg _ (loc_of_shr_record mrs1) H1)).
  destruct (shr_fexp prec emax
              (round_nearest_even (shr_m mrs1) (loc_of_shr_record mrs1))
              e1 loc_Exact) as [mrs2 e2].
  simpl in H2.
  destruct (shr_m mrs2) as [|q|q]; [reflexivity| |lia].
  destruct (e2 <=? emax - prec)%Z; reflexivity.
Qed.

(** [float] of a decimal is never negative and never a NaN. *)
Lemma float_of_decimal_nonneg (m : Z) (k : nat) :
  float_nonneg (float_of_decimal m k) = true.
Proof.
  unfold float_of_decimal. destruct m as [|q|q]; try reflexivity.
  unfold SFdiv_core_binary.
  set (e' := Z.min _ _). set (m' := match (0 - 0 - e')%Z with
                                    | Zpos _ => _ | Z0 => _ | Zneg _ => _ end).
  assert (Hm' : (0 <= m')%Z).
  { unfold m'. destruct (0 - 0 - e')%Z; try lia.
    apply Z.shiftl_nonneg. lia. }
  assert (Hq : (0 <= fst (Z.div_eucl m' (10 ^ Z.of_nat k)))%Z).
  { change (fst (Z.div_eucl m' (10 ^ Z.of_nat k)))
      with (m' / 10 ^ Z.of_nat k)%Z.
    apply Z.div_pos; [exact Hm' | apply Z.pow_pos_nonneg; lia]. }
  destruct (Z.div_eucl m' (10 ^ Z.of_nat k)) as [q0 r0]. simpl in Hq.
  now apply binary_round_aux_nonneg.
Qed.

Lemma number_token (s : Lexer) (t : Token) (s' : Lexer) :
  number s = Ok (t, s') -> unused_kind (type t) = false /\ value_fits t.
Proof.
  unfold number, py_int, py_float. intros H.
  destruct (while_char py_isdigit (fuel_for s) "" s) as [[w s1]| |];
    cbn [bind] in H; try discriminate.
  assert (Hint : forall r,
             r = (n <- (if int_accepts w
                        then Ok (digits_value 0 w) else Raise ValueError) ;;
                  Ok (new_token INTEGER_CONST (VInt n) s1, s1)) ->
             r = Ok (t, s') -> unused_kind (type t) = false /\ value_fits t).
  { intros r -> Hr. destruct (int_accepts w); cbn [bind] in Hr;
      [|discriminate].
    injection Hr as <- <-. split; [reflexivity|].
    unfold value_fits. cbn [type value new_token].
    eexists. split; [reflexivity|]. apply digits_value_nonneg. lia. }
  destruct (current_char s1) as [c|]; [|eapply Hint; eauto].
  destruct (Ascii.eqb c dot); [|eapply Hint; eauto].
  destruct (peek s1) as [p|]; [|discriminate].
  destruct (py_isdigit p); [|eapply Hint; eauto].
  cbv zeta in H.
  destruct (while_char py_isdigit (fuel_for (advance s1)) "" (advance s1))
    as [[fr s3]| |]; cbn [bind] in H; try discriminate.
  destruct (float_accepts w fr); cbn [bind] in H;
    [|discriminate].
  injection H as <- <-. split; [reflexivity|].
  unfold value_fits. cbn [type value new_token].
  eexists. split; [reflexivity|]. apply float_of_decimal_nonneg.
Qed.

Lemma identifier_token (s : Lexer) (t : Token) (s' : Lexer) :
  identifier s = Ok (t, s') -> unused_kind (type t) = false /\ value_fits t.
Proof.
  unfold identifier. intros H. break_result H.
  injection H as <- <-. split.
  - apply dict_get_reserved_used.
  - apply keyword_value_fits.
Qed.

Lemma classify_token (c : ascii) (s : Lexer) (t : Token) (s' : Lexer) :
  classify c s = Ok (t, s') -> unused_kind (type t) = false /\ value_fits t.
Proof.
  unfold classify, single, with_equal, error. intros H.
  repeat match type of H with
  | (if ?b then _ else _) = _ => destruct b
  end;
  eauto using number_token, identifier_token;
  break_result H; kind_of H; split; reflexivity.
Qed.

Lemma get_next_token_loop_token (f : nat) :
  forall (s : Lexer) (t : Token) (s' : Lexer),
    get_next_token_loop f s = Ok (t, s') ->
    unused_kind (type t) = false /\ value_fits t.
Proof.
  induction f as [|f IH]; intros s t s' H; [discriminate|].
  rewrite get_next_token_loop_S in H.
  destruct (current_char s) as [c|].
  - destruct (py_isspace c).
    + destruct (skip_whitespace s) as [s1| |]; cbn [bind] in H;
        try discriminate. eauto.
    + destruct (Ascii.eqb c "{").
      * destruct (skip_comments s) as [s1| |]; cbn [bind] in H;
          try discriminate. eauto.
      * now apply classify_token in H.
  - injection H as <- <-. split; reflexivity.
Qed.

(** X12.  [get_next_token] never returns a token of kind [LBRACE], [RBRACE]
    or [EQUAL]: the enumeration declares them, no branch builds them. *)
Theorem unused_kinds_never_returned (s : Lexer) (t : Token) (s' : Lexer) :
  get_next_token s = Ok (t, s') ->
  type t <> LBRACE /\ type t <> RBRACE /\ type t <> EQUAL.
Proof.
  intros H. apply get_next_token_loop_token in H. destruct H as [H _].
  repeat split; intros E; rewrite E in H; discriminate H.
Qed.

Lemma unused_kinds_never_returned_witness :
  let s := {| text := "a<b"; pos := 1; current_char := Some "<"%char;
              lineno := 1; column := 1 |} in
  let t := {| type := LESS; value := VType LESS; line := 1; col := 1 |} in
  let s' := {| text := "a<b"; pos := 2; current_char := Some "b"%char;
               lineno := 1; column := 1 |} in
  get_next_token s = Ok (t, s')
  /\ type t <> LBRACE /\ type t <> RBRACE /\ type t <> EQUAL.
Proof.
  intros s t s'.
  assert (H : get_next_token s = Ok (t, s')) by reflexivity.
  split; [exact H|].
  exact (unused_kinds_never_returned s t s' H).
Defined.

(** X13.  The kind of a returned token fixes what its value is: [None] for
    [EOF]; a non-negative [int] for [INTEGER_CONST]; a [float] for
    [REAL_CONST]; a [str] for [IDENT]; the keyword's own spelling for each of
    the eight keyword kinds; and the kind itself for every operator and
    punctuation kind. *)
Theorem token_value_fits_kind (s : Lexer) (t : Token) (s' : Lexer) :
  get_next_token s = Ok (t, s') -> value_fits t.
Proof.
  intros H. now apply get_next_token_loop_token in H.
Qed.

Lemma token_value_fits_kind_witness :
  let s := {| text := "x DIV 2"; pos := 1; current_char := Some " "%char;
              lineno := 1; column := 1 |} in
  let t := {| type := INTEGER_DIV; value := VStr "DIV"; line := 1;
              col := 1 |} in
  let s' := {| text := "x DIV 2"; pos := 5; current_char := Some " "%char;
               lineno := 1; column := 1 |} in
  get_next_token s = Ok (t, s') /\ value_fits t.
Proof.
  intros s t s'.
  assert (H : get_next_token s = Ok (t, s')) by reflexivity.
  split; [exact H|].
  exact (token_value_fits_kind s t s' H).
Defined.

(** ** The skipping methods and the identifier, by the shape of the text *)

(** X14.  [skip_whitespace] never raises and moves the cursor over exactly
    the run of whitespace it stands on: it stops at the first character that
    is not whitespace, or at the end of the text. *)
Theorem skip_whitespace_skips_the_run (s : Lexer) (done ws rest : string) :
  consistent s ->
  text s = done ++ ws ++ rest ->
  pos s = String.length done ->
  string_forallb py_isspace ws = true ->
  stops_at py_isspace rest ->
  let s' := advance_n (String.length ws) s in
  skip_whitespace s = Ok s'
  /\ pos s' = String.length (done ++ ws)
  /\ current_char s' = String.get 0 rest.
Proof.
  intros Hc Ht Hp Hws Hstop s'.
  unfold skip_whitespace.
  rewrite (while_char_run py_isspace ws done rest "" s (fuel_for s));
    auto; [|unfold fuel_for; rewrite Ht, !length_app; lia].
  cbn [bind]. fold s'. split; [reflexivity|]. split.
  - unfold s'. now rewrite advance_n_pos, Hp, length_app.
  - unfold s'. rewrite advance_n_current by exact Hc.
    rewrite Ht, Hp.
    replace (String.length done + String.length ws)
      with (String.length (done ++ ws) + 0) by (rewrite length_app; lia).
    rewrite <- app_assoc. apply get_app_skip.
Qed.

Lemma skip_whitespace_skips_the_run_witness :
  let s := {| text := "a  b"; pos := 1; current_char := Some " "%char;
              lineno := 1; column := 1 |} in
  let s' := {| text := "a  b"; pos := 3; current_char := Some "b"%char;
               lineno := 1; column := 1 |} in
  skip_whitespace s = Ok s'
  /\ pos s' = String.length "a  "
  /\ current_char s' = Some "b"%char.
Proof.
  intros s s'.
  apply (skip_whitespace_skips_the_run s "a" "  " "b"); reflexivity.
Defined.

(** X15.  [skip_comments] moves the cursor behind the first [}] at or behind
    it.  If there is none it runs to the end of the text and raises the
    [Exception] of [Lexer.error] with [None] as the character.  Comments do
    not nest: a [{] inside the comment is skipped like any character. *)
Theorem skip_comments_ends_at_first_rbrace (s : Lexer) (done body : string) :
  consistent s ->
  pos s = String.length done ->
  string_forallb not_rbrace body = true ->
  (forall rest : string,
      text s = done ++ body ++ String rbrace rest ->
      let s' := advance_n (S (String.length body)) s in
      skip_comments s = Ok s'
      /\ pos s' = String.length (done ++ body) + 1
      /\ current_char s' = String.get 0 rest)
  /\ (text s = done ++ body ->
      let s' := advance_n (String.length body) s in
      skip_comments s
      = Raise (PyException (error_message None (lineno s') (column s')))).
Proof.
  intros Hc Hp Hbody. split.
  - intros rest Ht s'. unfold skip_comments.
    rewrite (while_char_run not_rbrace body done (String rbrace rest) "" s
               (fuel_for s)); auto;
      [|reflexivity|unfold fuel_for; rewrite Ht, !length_app; lia].
    cbn [bind].
    assert (E : current_char (advance_n (String.length body) s)
                = Some rbrace).
    { rewrite advance_n_current by exact Hc. rewrite Ht, Hp.
      rewrite <- length_app, <- app_assoc. apply get_app_here. }
    rewrite E.
    change (advance (advance_n (String.length body) s)) with s'.
    split; [reflexivity|]. split.
    + unfold s'. rewrite advance_n_pos, Hp, length_app. lia.
    + unfold s'. rewrite advance_n_current by exact Hc. rewrite Ht, Hp.
      replace (String.length done + S (String.length body))
        with (String.length (done ++ body ++ String rbrace "") + 0)
        by (rewrite !length_app; simpl; lia).
      replace (done ++ body ++ String rbrace rest)
        with ((done ++ body ++ String rbrace "") ++ rest)
        by (rewrite !app_assoc; reflexivity).
      apply get_app_skip.
  - intros Ht s'. unfold skip_comments.
    assert (Ht' : text s = done ++ body ++ "") by now rewrite app_empty_r.
    rewrite (while_char_run not_rbrace body done "" "" s (fuel_for s));
      auto; [|exact I|unfold fuel_for; rewrite Ht, !length_app; lia].
    cbn [bind]. fold s'.
    assert (E : current_char s' = None).
    { unfold s'. rewrite advance_n_current by exact Hc. rewrite Ht, Hp.
      rewrite <- length_app. apply get_app_end. }
    rewrite E. unfold error. now rewrite E.
Qed.

Lemma skip_comments_ends_at_first_rbrace_witness :
  let s := {| text := "{a{b}c}"; pos := 0; current_char := Some "{"%char;
              lineno := 1; column := 1 |} in
  let u := {| text := "{ab"; pos := 0; current_char := Some "{"%char;
              lineno := 1; column := 1 |} in
  skip_comments s
  = Ok {| text := "{a{b}c}"; pos := 5; current_char := Some "c"%char;
          lineno := 1; column := 1 |}
  /\ skip_comments u
     = Raise (PyException "Lexer error on 'None' line: 1 column: 1").
Proof.
  intros s u. split.
  - apply (proj1 (skip_comments_ends_at_first_rbrace s "" "{a{b"
                    eq_refl eq_refl eq_refl) "c}").
    reflexivity.
  - apply (proj2 (skip_comments_ends_at_first_rbrace u "" "{ab"
                    eq_refl eq_refl eq_refl)).
    reflexivity.
Defined.

(** X16.  A run of letters that is followed by the end of the text or by a
    character that is not a letter is read as one token whose value is the
    run: of the keyword kind if the run is spelled exactly as one of the
    reserved words, of kind [IDENT] otherwise.  The cursor stops right
    behind the run (a digit or an underscore ends the name). *)
Theorem word_is_one_token (s : Lexer) (done w rest : string) :
  consistent s ->
  text s = done ++ w ++ rest ->
  pos s = String.length done ->
  w <> "" ->
  string_forallb py_isalpha w = true ->
  stops_at py_isalpha rest ->
  let s' := advance_n (String.length w) s in
  get_next_token s
  = Ok ({| type := dict_get reserved_keywords w IDENT; value := VStr w;
           line := lineno s'; col := column s' |}, s')
  /\ (dict_get reserved_keywords w IDENT <> IDENT <->
      In w (map fst reserved_keywords)).
Proof.
  intros Hc Ht Hp Hne Hw Hstop s'.
  destruct (first_char w Hne) as (c & w' & Ew).
  assert (E : current_char s = Some c).
  { rewrite Hc, Ht, Hp, Ew. apply get_app_here. }
  assert (A : py_isalpha c = true).
  { rewrite Ew in Hw. simpl in Hw. now apply andb_true_iff in Hw as [A _]. }
  destruct (letter_dispatch c A) as (H1 & H2 & H3 & H4).
  split.
  - rewrite get_next_token_unfold, get_next_token_loop_S, E, H1, H2.
    unfold classify. rewrite H3, H4. unfold identifier.
    rewrite (while_char_run py_isalpha w done rest "" s (fuel_for s)); auto.
    unfold fuel_for. rewrite Ht, !length_app. lia.
  - unfold reserved_keywords. cbn [dict_get map fst In].
    repeat match goal with
    | |- context [String.eqb ?k w] =>
        destruct (String.eqb_spec k w) as [<-|?N];
        [split; [intros _; tauto | intros _; discriminate]|]
    end.
    split; [intros H; now contradiction H | intros H; exfalso; intuition].
Qed.

Lemma word_is_one_token_witness :
  let s := {| text := "END1"; pos := 0; current_char := Some "E"%char;
              lineno := 1; column := 1 |} in
  get_next_token s
  = Ok ({| type := END; value := VStr "END"; line := 1; col := 1 |},
        {| text := "END1"; pos := 3; current_char := Some "1"%char;
           lineno := 1; column := 1 |}).
Proof.
  intros s.
  refine (proj1 (word_is_one_token s "" "END" "1" _ _ _ _ _ _));
    first [reflexivity | discriminate].
Defined.

(** ** Progress *)

Lemma while_char_progress (test : ascii -> bool) (f : nat) (acc a : string)
    (s s1 : Lexer) (c : ascii) :
  current_char s = Some c -> test c = true ->
  while_char test f acc s = Ok (a, s1) -> pos s < pos s1.
Proof.
  intros E T W. destruct f as [|f]; [discriminate|].
  rewrite while_char_S, E, T in W.
  apply while_char_moves, moves_pos in W. rewrite advance_pos in W. lia.
Qed.

(** A loop that ends where it started did not iterate. *)
Lemma while_char_still (test : ascii -> bool) (f : nat) (acc a : string)
    (s s1 : Lexer) :
  while_char test f acc s = Ok (a, s1) -> pos s1 = pos s ->
  a = acc /\ s1 = s.
Proof.
  intros W P. destruct f as [|f]; [discriminate|].
  rewrite while_char_S in W.
  destruct (current_char s) as [c|] eqn:E.
  - destruct (test c) eqn:T.
    + apply while_char_moves, moves_pos in W. rewrite advance_pos in W. lia.
    + now injection W as <- <-.
  - now injection W as <- <-.
Qed.

Lemma number_split (s : Lexer) (t : Token) (s' : Lexer) :
  number s = Ok (t, s') ->
  exists w s1,
    while_char py_isdigit (fuel_for s) "" s = Ok (w, s1) /\ moves s1 s'.
Proof.
  unfold number, py_int, py_float. intros H.
  destruct (while_char py_isdigit (fuel_for s) "" s) as [[w s1]| |] eqn:W;
    cbn [bind] in H; try discriminate.
  exists w, s1. split; [reflexivity|].
  assert (Hint : forall r,
             r = (n <- (if int_accepts w
                        then Ok (digits_value 0 w) else Raise ValueError) ;;
                  Ok (new_token INTEGER_CONST (VInt n) s1, s1)) ->
             r = Ok (t, s') -> moves s1 s').
  { intros r -> Hr. destruct (int_accepts w); cbn [bind] in Hr;
      [|discriminate].
    injection Hr as _ <-. constructor. }
  destruct (current_char s1) as [c|] eqn:E; [|eapply Hint; eauto].
  destruct (Ascii.eqb c dot); [|eapply Hint; eauto].
  destruct (peek s1) as [p|]; [|discriminate].
  destruct (py_isdigit p); [|eapply Hint; eauto].
  cbv zeta in H.
  destruct (while_char py_isdigit (fuel_for (advance s1)) "" (advance s1))
    as [[fr s3]| |] eqn:W3; cbn [bind] in H; try discriminate.
  apply while_char_moves in W3.
  destruct (float_accepts w fr); cbn [bind] in H;
    [|discriminate].
  injection H as _ <-.
  apply moves_on with c; [exact E | exact W3].
Qed.

Lemma classify_still (c : ascii) (s : Lexer) (t : Token) (s' : Lexer) :
  current_char s = Some c ->
  classify c s = Ok (t, s') -> pos s' = pos s ->
  s' = s
  /\ t = {| type := IDENT; value := VStr ""; line := lineno s;
            col := column s |}.
Proof.
  intros E H P. unfold classify in H.
  destruct (py_isdigit c) eqn:D.
  { destruct (number_split s t s' H) as (w & s1 & W & M).
    apply (while_char_progress _ _ _ _ _ _ c E D) in W.
    apply moves_pos in M. lia. }
  destruct (isalpha c).
  { unfold identifier in H.
    destruct (while_char py_isalpha (fuel_for s) "" s) as [[a s1]| |] eqn:W;
      cbn [bind] in H; try discriminate.
    injection H as <- <-.
    destruct (while_char_still _ _ _ _ _ _ W P) as [-> ->].
    split; reflexivity. }
  exfalso. unfold single, with_equal, error in H.
  repeat match type of H with
  | (if ?b then _ else _) = _ => destruct b; try discriminate H
  | match ?x with _ => _ end = _ => destruct x; try discriminate H
  end;
  injection H as _ <-; rewrite ?advance_pos in P; lia.
Qed.

Lemma get_next_token_loop_still (f : nat) :
  forall (s : Lexer) (t : Token) (s' : Lexer),
    get_next_token_loop f s = Ok (t, s') -> pos s' = pos s ->
    s' = s
    /\ (t = eof_token
        \/ t = {| type := IDENT; value := VStr ""; line := lineno s;
                  col := column s |}).
Proof.
  induction f as [|f IH]; intros s t s' H P; [discriminate|].
  rewrite get_next_token_loop_S in H.
  destruct (current_char s) as [c|] eqn:E.
  - destruct (py_isspace c) eqn:Hsp.
    + exfalso.
      destruct (skip_whitespace s) as [s1| |] eqn:K; cbn [bind] in H;
        try discriminate.
      unfold skip_whitespace in K.
      destruct (while_char py_isspace (fuel_for s) "" s) as [[a s2]| |] eqn:W;
        cbn [bind] in K; try discriminate.
      injection K as ->.
      apply (while_char_progress _ _ _ _ _ _ c E Hsp) in W.
      apply get_next_token_loop_moves in H. destruct H as [M _].
      apply moves_pos in M. lia.
    + destruct (Ascii.eqb c "{").
      * exfalso.
        destruct (skip_comments s) as [s1| |] eqn:K; cbn [bind] in H;
          try discriminate.
        unfold skip_comments in K.
        destruct (while_char not_rbrace (fuel_for s) "" s)
          as [[a s2]| |] eqn:W; cbn [bind] in K; try discriminate.
        destruct (current_char s2); [|discriminate].
        injection K as <-.
        apply while_char_moves, moves_pos in W.
        apply get_next_token_loop_moves in H. destruct H as [M _].
        apply moves_pos in M. rewrite advance_pos in M. lia.
      * destruct (classify_still c s t s' E H P) as [-> ->]. auto.
  - injection H as <- <-. auto.
Qed.

(** X17.  A call of [get_next_token] that returns with the cursor where it
    was has changed nothing, and what it returned is the [EOF] token or an
    [IDENT] token with the empty string as value; every other token costs at
    least one character. *)
Theorem only_eof_and_empty_name_stand_still (s : Lexer) (t : Token)
    (s' : Lexer) :
  get_next_token s = Ok (t, s') ->
  pos s' = pos s ->
  s' = s
  /\ (t = eof_token
      \/ t = {| type := IDENT; value := VStr ""; line := lineno s;
                col := column s |}).
Proof. apply get_next_token_loop_still. Qed.

Lemma only_eof_and_empty_name_stand_still_witness :
  let s := {| text := "a_"; pos := 1; current_char := Some "_"%char;
              lineno := 1; column := 1 |} in
  let t := {| type := IDENT; value := VStr ""; line := 1; col := 1 |} in
  get_next_token s = Ok (t, s)
  /\ s = s
  /\ (t = eof_token
      \/ t = {| type := IDENT; value := VStr ""; line := lineno s;
                col := column s |}).
Proof.
  intros s t.
  assert (H : get_next_token s = Ok (t, s)) by reflexivity.
  split; [exact H|].
  exact (only_eof_and_empty_name_stand_still s t s H eq_refl).
Defined.

(** ** Slices of the text *)

Lemma substring_zero (s : string) : forall n, String.substring n 0 s = "".
Proof.
  induction s as [|c s IH]; intros [|n]; simpl; auto.
Qed.

Lemma substring_step (s : string) :
  forall n m,
    String.substring n (S m) s
    = match String.get n s with
      | Some c => String c (String.substring (S n) m s)
      | None => ""
      end.
Proof.
  induction s as [|c s IH]; intros [|n] m; simpl; auto.
Qed.

Lemma substring_none (s : string) :
  forall n m, String.get n s = None -> String.substring (S n) m s = "".
Proof.
  induction s as [|c s IH]; intros [|n] m H; simpl in *; auto;
    try discriminate.
Qed.

(** What a loop accumulates is the slice of the text it crossed, and every
    character of it passes the test. *)
Lemma while_char_slice (test : ascii -> bool) (f : nat) :
  forall (acc a : string) (s s1 : Lexer),
    consistent s ->
    while_char test f acc s = Ok (a, s1) ->
    exists mid,
      a = acc ++ mid
      /\ pos s1 = pos s + String.length mid
      /\ mid = String.substring (pos s) (String.length mid) (text s)
      /\ string_forallb test mid = true.
Proof.
  induction f as [|f IH]; intros acc a s s1 Hc W; [discriminate|].
  rewrite while_char_S in W.
  destruct (current_char s) as [c|] eqn:E.
  - destruct (test c) eqn:T.
    + destruct (IH _ _ _ _ (advance_consistent s) W)
        as (mid & Ha & Hp & Hs & Hall).
      rewrite advance_pos, advance_text in *.
      exists (String c mid). repeat split.
      * now rewrite Ha, app_assoc.
      * simpl. lia.
      * cbn [String.length]. rewrite substring_step, <- Hc, E.
        now rewrite <- Hs.
      * simpl. now rewrite T, Hall.
    + injection W as <- <-. exists "". rewrite app_empty_r, substring_zero.
      simpl. repeat split; auto.
  - injection W as <- <-. exists "". rewrite app_empty_r, substring_zero.
    simpl. repeat split; auto.
Qed.

Lemma number_value_not_str (s : Lexer) (t : Token) (s' : Lexer)
    (name : string) :
  number s = Ok (t, s') -> value t <> VStr name.
Proof.
  intros H E. destruct (number_token s t s' H) as [_ F].
  unfold number, py_int, py_float in H.
  destruct (while_char py_isdigit (fuel_for s) "" s) as [[w s1]| |];
    cbn [bind] in H; try discriminate.
  assert (Hint : forall r,
             r = (n <- (if int_accepts w
                        then Ok (digits_value 0 w) else Raise ValueError) ;;
                  Ok (new_token INTEGER_CONST (VInt n) s1, s1)) ->
             r = Ok (t, s') -> False).
  { intros r -> Hr. destruct (int_accepts w); cbn [bind] in Hr;
      [|discriminate].
    injection Hr as <- _. discriminate E. }
  destruct (current_char s1) as [c|]; [|eapply Hint; eauto].
  destruct (Ascii.eqb c dot); [|eapply Hint; eauto].
  destruct (peek s1) as [p|]; [|discriminate].
  destruct (py_isdigit p); [|eapply Hint; eauto].
  cbv zeta in H.
  destruct (while_char py_isdigit (fuel_for (advance s1)) "" (advance s1))
    as [[fr s3]| |]; cbn [bind] in H; try discriminate.
  destruct (float_accepts w fr); cbn [bind] in H;
    [|discriminate].
  injection H as <- _. discriminate E.
Qed.

Lemma classify_name (c : ascii) (s : Lexer) (t : Token) (s' : Lexer)
    (name : string) :
  consistent s ->
  classify c s = Ok (t, s') -> value t = VStr name ->
  is_slice_of_letters name s'.
Proof.
  intros Hc H V. unfold classify in H.
  destruct (py_isdigit c).
  { now apply number_value_not_str with (name := name) in H. }
  destruct (isalpha c).
  { unfold identifier in H.
    destruct (while_char py_isalpha (fuel_for s) "" s) as [[a s1]| |] eqn:W;
      cbn [bind] in H; try discriminate.
    injection H as <- <-. cbn [value new_token] in V. injection V as ->.
    assert (T := moves_text _ _ (while_char_moves _ _ _ _ _ _ W)).
    destruct (while_char_slice _ _ _ _ _ _ Hc W) as (mid & Ha & Hp & Hs & Hall).
    simpl in Ha. subst name.
    unfold is_slice_of_letters. rewrite Hp, T.
    replace (pos s + String.length mid - String.length mid) with (pos s)
      by lia.
    repeat split; auto. lia. }
  exfalso. unfold single, with_equal, error in H.
  repeat match type of H with
  | (if ?b then _ else _) = _ => destruct b; try discriminate H
  | match ?x with _ => _ end = _ => destruct x; try discriminate H
  end;
  injection H as <- _; discriminate V.
Qed.

Lemma get_next_token_loop_name (f : nat) :
  forall (s : Lexer) (t : Token) (s' : Lexer) (name : string),
    consistent s ->
    get_next_token_loop f s = Ok (t, s') -> value t = VStr name ->
    is_slice_of_letters name s'.
Proof.
  induction f as [|f IH]; intros s t s' name Hc H V; [discriminate|].
  rewrite get_next_token_loop_S in H.
  destruct (current_char s) as [c|] eqn:E.
  - destruct (py_isspace c).
    + destruct (skip_whitespace s) as [s1| |] eqn:K; cbn [bind] in H;
        try discriminate.
      apply skip_whitespace_moves in K.
      apply (IH s1 t s' name);
        [eapply moves_consistent; eauto | exact H | exact V].
    + destruct (Ascii.eqb c "{").
      * destruct (skip_comments s) as [s1| |] eqn:K; cbn [bind] in H;
          try discriminate.
        apply skip_comments_moves in K.
        apply (IH s1 t s' name);
        [eapply moves_consistent; eauto | exact H | exact V].
      * eapply classify_name; eauto.
  - injection H as <- _. discriminate V.
Qed.

(** X18.  A token that carries a string carries letters only, and that
    string is the slice of the text that ends at the cursor: the name of an
    identifier or keyword token is what the call just consumed. *)
Theorem name_is_slice_of_letters (s : Lexer) (t : Token) (s' : Lexer)
    (name : string) :
  consistent s ->
  get_next_token s = Ok (t, s') ->
  value t = VStr name ->
  string_forallb py_isalpha name = true
  /\ String.length name <= pos s'
  /\ name = String.substring (pos s' - String.length name)
              (String.length name) (text s').
Proof.
  intros Hc H V. exact (get_next_token_loop_name _ s t s' name Hc H V).
Qed.

Lemma name_is_slice_of_letters_witness :
  let s := {| text := "  foo1"; pos := 0; current_char := Some " "%char;
              lineno := 1; column := 1 |} in
  let t := {| type := IDENT; value := VStr "foo"; line := 1; col := 1 |} in
  let s' := {| text := "  foo1"; pos := 5; current_char := Some "1"%char;
               lineno := 1; column := 1 |} in
  get_next_token s = Ok (t, s')
  /\ string_forallb py_isalpha "foo" = true
  /\ String.length "foo" <= pos s'
  /\ "foo" = String.substring (pos s' - String.length "foo")
               (String.length "foo") (text s').
Proof.
  intros s t s'.
  assert (H : get_next_token s = Ok (t, s')) by reflexivity.
  split; [exact H|].
  exact (name_is_slice_of_letters s t s' "foo" eq_refl H eq_refl).
Defined.

(** ** The line counter *)

Lemma advance_lineno (s : Lexer) :
  lineno (advance s)
  = lineno s
    + (if is_newline (String.get (S (pos s)) (text s)) then 1 else 0).
Proof.
  assert (E := advance_counters s). rewrite advance_current in E.
  destruct (is_newline (String.get (S (pos s)) (text s)));
    injection E as E _; lia.
Qed.

Lemma advance_n_lineno (k : nat) :
  forall s : Lexer,
    lineno (advance_n k s)
    = lineno s
      + count_newlines (String.substring (S (pos s)) k (text s)).
Proof.
  induction k as [|k IH]; intros s.
  - rewrite substring_zero. simpl. lia.
  - rewrite advance_n_succ, IH, advance_lineno, advance_pos, advance_text.
    rewrite substring_step.
    destruct (String.get (S (pos s)) (text s)) as [c|] eqn:G.
    + cbn [count_newlines is_newline]. lia.
    + rewrite (substring_none _ _ _ G). simpl. lia.
Qed.

(** X19.  The line counter of a scan counts the newlines the cursor has
    arrived on: in every state a scan returns it is 1 plus the number of
    newlines in [text[1 : pos + 1]].  A newline at index 0 is never counted,
    and a token other than the [EOF] token carries this count (so a token
    that a newline follows directly is already given the next line). *)
Theorem line_counts_newlines_arrived_on (txt : string) (n : nat) (t : Token)
    (s' : Lexer) :
  scan n txt = Ok (t, s') ->
  lineno s' = 1 + count_newlines (String.substring 1 (pos s') txt)
  /\ (t = eof_token \/ line t = lineno s').
Proof.
  unfold scan. intros H.
  destruct (Lexer_init txt) as [s| |] eqn:Hi; cbn [bind] in H;
    try discriminate.
  assert (Hs : text s = txt /\ pos s = 0 /\ lineno s = 1).
  { unfold Lexer_init in Hi. destruct (String.get 0 txt); [|discriminate].
    now injection Hi as <-. }
  destruct Hs as (Ht & Hp & Hl).
  destruct (nth_call_moves n s t s' H) as [M S].
  split.
  - rewrite (moves_is_advance_n _ _ M) at 1.
    rewrite advance_n_lineno, Hp, Hl, Ht, Nat.sub_0_r. reflexivity.
  - destruct S as [->|(ty & v & ->)]; [now left | now right].
Qed.

Lemma line_counts_newlines_arrived_on_witness :
  let txt := String newline (String "a" (String newline "b")) in
  let t := {| type := IDENT; value := VStr "a"; line := 2; col := 1 |} in
  let s' := {| text := txt; pos := 2; current_char := Some newline;
               lineno := 2; column := 1 |} in
  scan 0 txt = Ok (t, s')
  /\ lineno s' = 1 + count_newlines (String.substring 1 (pos s') txt)
  /\ (t = eof_token \/ line t = lineno s').
Proof.
  intros txt t s'.
  assert (H : scan 0 txt = Ok (t, s')) by reflexivity.
  split; [exact H|].
  exact (line_counts_newlines_arrived_on txt 0 t s' H).
Defined.

(** ** Scans that end *)

Lemma string_forallb_get (p : ascii -> bool) (w : string) :
  string_forallb p w = true ->
  forall n c, String.get n w = Some c -> p c = true.
Proof.
  induction w as [|x w IH]; intros H n c G; simpl in *; [discriminate|].
  apply andb_true_iff in H as [H1 H2].
  destruct n as [|n]; [now injection G as <- | eauto].
Qed.

(** The character on which a call stood still and returned a token. *)
Lemma classify_still_char (c : ascii) (s : Lexer) (t : Token) (s' : Lexer) :
  current_char s = Some c ->
  classify c s = Ok (t, s') -> pos s' = pos s ->
  consumable c = false.
Proof.
  intros E H P. unfold classify in H. unfold consumable.
  destruct (py_isdigit c) eqn:D.
  { destruct (number_split s t s' H) as (w & s1 & W & M).
    apply (while_char_progress _ _ _ _ _ _ c E D) in W.
    apply moves_pos in M. lia. }
  destruct (isalpha c).
  { unfold identifier in H.
    destruct (while_char py_isalpha (fuel_for s) "" s) as [[a s1]| |] eqn:W;
      cbn [bind] in H; try discriminate.
    injection H as _ <-.
    destruct (py_isalpha c) eqn:A; [|reflexivity].
    apply (while_char_progress _ _ _ _ _ _ c E A) in W. lia. }
  exfalso. unfold single, with_equal, error in H.
  repeat match type of H with
  | (if ?b then _ else _) = _ => destruct b; try discriminate H
  | match ?x with _ => _ end = _ => destruct x; try discriminate H
  end;
  injection H as _ <-; rewrite ?advance_pos in P; lia.
Qed.

Lemma get_next_token_loop_still_char (f : nat) (s : Lexer) (t : Token)
    (s' : Lexer) :
  get_next_token_loop f s = Ok (t, s') -> pos s' = pos s ->
  t = eof_token
  \/ exists c, current_char s = Some c /\ consumable c = false.
Proof.
  intros H P. destruct f as [|f]; [discriminate|].
  rewrite get_next_token_loop_S in H.
  destruct (current_char s) as [c|] eqn:E.
  - destruct (py_isspace c) eqn:Hsp.
    + exfalso.
      destruct (skip_whitespace s) as [s1| |] eqn:K; cbn [bind] in H;
        try discriminate.
      unfold skip_whitespace in K.
      destruct (while_char py_isspace (fuel_for s) "" s) as [[a s2]| |] eqn:W;
        cbn [bind] in K; try discriminate.
      injection K as ->.
      apply (while_char_progress _ _ _ _ _ _ c E Hsp) in W.
      apply get_next_token_loop_moves in H. destruct H as [M _].
      apply moves_pos in M. lia.
    + destruct (Ascii.eqb c "{").
      * exfalso.
        destruct (skip_comments s) as [s1| |] eqn:K; cbn [bind] in H;
          try discriminate.
        unfold skip_comments in K.
        destruct (while_char not_rbrace (fuel_for s) "" s)
          as [[a s2]| |] eqn:W; cbn [bind] in K; try discriminate.
        destruct (current_char s2); [|discriminate].
        injection K as <-.
        apply while_char_moves, moves_pos in W.
        apply get_next_token_loop_moves in H. destruct H as [M _].
        apply moves_pos in M. rewrite advance_pos in M. lia.
      * right. exists c. split; [reflexivity|].
        eapply classify_still_char; eauto.
  - left. now injection H as <- _.
Qed.

(** With every character consumable, a call returns the [EOF] token or
    moves the cursor on. *)
Lemma get_next_token_progress (s : Lexer) (t : Token) (s' : Lexer) :
  consistent s ->
  string_forallb consumable (text s) = true ->
  get_next_token s = Ok (t, s') ->
  t = eof_token \/ pos s < pos s'.
Proof.
  intros Hc Hall H.
  assert (M := proj1 (get_next_token_loop_moves _ s t s' H)).
  apply moves_pos in M.
  destruct (Nat.eq_dec (pos s') (pos s)) as [P|P]; [|right; lia].
  left.
  destruct (get_next_token_loop_still_char _ s t s' H P)
    as [->|(c & E & G)]; [reflexivity|].
  rewrite (string_forallb_get _ _ Hall (pos s) c) in G; [discriminate|].
  now rewrite <- Hc.
Qed.

Lemma scan_ends_from (txt : string) (k : nat) :
  string_forallb consumable txt = true ->
  forall s : Lexer,
    consistent s -> text s = txt -> pos s <= String.length txt ->
    String.length txt - pos s < k ->
    exists n, n < k /\ scan_over (nth_call n s).
Proof.
  intros Hall. induction k as [|k IH]; intros s Hc Ht Hp Hk; [lia|].
  assert (T := get_next_token_total s Hc).
  destruct (get_next_token s) as [[t s1]|e|] eqn:G.
  - destruct T as (C1 & T1 & _).
    destruct (get_next_token_progress s t s1 Hc ltac:(now rewrite Ht) G)
      as [->|P].
    + exists 0. split; [lia|]. simpl. now rewrite G.
    + assert (M := proj1 (get_next_token_loop_moves _ s t s1 G)).
      assert (B := moves_bound _ _ M Hc ltac:(now rewrite Ht)).
      rewrite T1, Ht in B.
      destruct (IH s1 C1 ltac:(congruence) B ltac:(lia)) as (n & Hn & O).
      exists (S n). split; [lia|].
      now rewrite (nth_call_succ n s s1 t G).
  - exists 0. split; [lia|]. simpl. now rewrite G.
  - contradiction.
Qed.

(** X20.  On a text that holds no underscore and no other character that
    [Lexer.isalpha] accepts without its being a letter or a digit, scanning
    ends: among the first [len(text) + 1] calls of [get_next_token] one
    returns the [EOF] token or raises. *)
Theorem scan_ends_without_underscores (txt : string) :
  string_forallb consumable txt = true ->
  exists n, n <= String.length txt /\ scan_over (scan n txt).
Proof.
  intros Hall. unfold scan.
  destruct (Lexer_init txt) as [s|e|] eqn:Hi.
  - destruct (Lexer_init_consistent txt s Hi) as (Hc & Ht & Hp).
    destruct (scan_ends_from txt (S (String.length txt)) Hall s Hc Ht
                ltac:(lia) ltac:(lia)) as (n & Hn & O).
    exists n. split; [lia | exact O].
  - exists 0. split; [lia | exact I].
  - unfold Lexer_init in Hi. destruct (String.get 0 txt); discriminate.
Qed.

Lemma scan_ends_without_underscores_witness :
  string_forallb consumable "x:=1;" = true
  /\ exists n, n <= String.length "x:=1;" /\ scan_over (scan n "x:=1;").
Proof.
  split; [reflexivity|].
  exact (scan_ends_without_underscores "x:=1;" eq_refl).
Defined.
